(** * msg: a publish/subscribe and point-to-point message broker

    A shallow embedding of [msg/protocol.py], [msg/persistence.py] and
    [msg/broker.py] (class [SimpleMessageBroker]), and the properties of the
    dispatch engine proved on it.

    Conventions of the embedding:
    - a decoded request is a JSON value ([json]); JSON numbers are the
      integers (floating point values are left out);
    - a [StreamWriter] is a [handle]; what the broker writes is recorded, in
      order, in the [wire] of the [world], as the dictionary handed to
      [encode_message] (the byte encoding itself is the wire codec's);
    - a write to a handle whose transport is lost ([down]) raises;
    - the data directory is a finite map from file names to JSON documents;
      [json.dump] followed by [json.load] is the identity on documents;
    - [logging] calls are left out;
    - one pass of the request loop of [handle_client] runs without
      interleaving with the other connections. *)

From stdpp Require Import base gmap strings list fin_maps pretty.

Open Scope string_scope.
Open Scope list_scope.
Set Warnings "-register-all".

(** ** Values *)

(** What [json.loads] returns: [None], [bool], [int], [str], [list], and
    [dict] (as its items, keys distinct). *)
Inductive json : Type :=
  | JNull
  | JBool (b : bool)
  | JInt (n : Z)
  | JStr (s : string)
  | JArr (items : list json)
  | JObj (fields : list (string * json)).

(** Python truthiness, as used by [x or y] and [if x:]. *)
Definition truthy (v : json) : bool :=
  match v with
  | JNull => false
  | JBool b => b
  | JInt n => negb (n =? 0)%Z
  | JStr s => negb (String.eqb s "")
  | JArr items => match items with [] => false | _ => true end
  | JObj fields => match fields with [] => false | _ => true end
  end.

(** [v == s] for a string literal [s]. *)
Definition str_eq (v : json) (s : string) : bool :=
  match v with
  | JStr s' => String.eqb s' s
  | _ => false
  end.

(** [x or y]. *)
Definition py_or (x y : json) : json := if truthy x then x else y.

(** [dict.get(key, default)] on the items of a dict. *)
Fixpoint dict_get (fields : list (string * json)) (key : string) (default : json) : json :=
  match fields with
  | [] => default
  | (k, v) :: rest => if String.eqb k key then v else dict_get rest key default
  end.

(** The hashable JSON values: the ones that can index a [defaultdict]. *)
Inductive scalar : Type :=
  | SNone
  | SBool (b : bool)
  | SInt (n : Z)
  | SStr (s : string).

Definition hashable (v : json) : option scalar :=
  match v with
  | JNull => Some SNone
  | JBool b => Some (SBool b)
  | JInt n => Some (SInt n)
  | JStr s => Some (SStr s)
  | JArr _ | JObj _ => None
  end.

(** Dictionary keys up to Python's [==]: [True == 1] and [False == 0]. *)
Inductive key : Type :=
  | KNone
  | KInt (n : Z)
  | KStr (s : string).

Definition dict_key (t : scalar) : key :=
  match t with
  | SNone => KNone
  | SBool b => KInt (if b then 1 else 0)
  | SInt n => KInt n
  | SStr s => KStr s
  end.

(** [str(t)], as an f-string formats it. *)
Definition py_str (t : scalar) : string :=
  match t with
  | SNone => "None"
  | SBool b => if b then "True" else "False"
  | SInt n => pretty n
  | SStr s => s
  end.

#[global] Instance key_eq_dec : EqDecision key.
Proof. solve_decision. Defined.

#[global] Instance key_countable : Countable key :=
  inj_countable'
    (λ k, match k with
          | KNone => inl ()
          | KInt n => inr (inl n)
          | KStr s => inr (inr s)
          end)
    (λ x, match x with
          | inl _ => KNone
          | inr (inl n) => KInt n
          | inr (inr s) => KStr s
          end)
    (λ k, match k with KNone | KInt _ | KStr _ => eq_refl end).

(** ** protocol.py *)

(** The text of an error record. [UnknownAction a] stands for the f-string
    ["Unknown action: {a}"]. *)
Inductive errtext : Type :=
  | ProtocolErrorText (e : string)
  | UnknownAction (action : json).

(** The dictionaries the broker hands to [encode_message]. *)
Inductive record : Type :=
  | RAck (message_id : json)
  | RError (error : errtext) (message_id : option json)
  | RMessage (topic message message_id : json).

Definition make_ack (message_id : json) : record := RAck message_id.

(** [make_error(error, message_id=None)]: the id is stored only if truthy. *)
Definition make_error (error : errtext) (message_id : json) : record :=
  RError error (if truthy message_id then Some message_id else None).

(** What one [reader.read(1024)] followed by [parse_message] gives. *)
Inductive input : Type :=
  | EOF                          (* [data] is empty *)
  | ReadError                    (* [reader.read] raises *)
  | Malformed (e : string)       (* [parse_message] raises [ProtocolError(e)] *)
  | Decoded (message : json).    (* [parse_message] returns [message] *)

(** ** persistence.py *)

(** A list of [(message, message_id)] tuples. *)
Abbreviation messages := (list (json * json)).

(** [f"{mode}_{topic}.json"], inside [DATA_DIR]. *)
Definition topic_file (topic mode : string) : string :=
  mode +:+ "_" +:+ topic +:+ ".json".

(** [json.dump] of a list of tuples: a tuple is written as an array. *)
Definition json_dump (msgs : messages) : json :=
  JArr (map (λ m, JArr [m.1; m.2]) msgs).

Definition save_messages (topic : string) (msgs : messages) (mode : string)
    (disk : gmap string json) : gmap string json :=
  <[topic_file topic mode := json_dump msgs]> disk.

(** [load_messages] returns what [json.load] gives: a list of two-element
    lists. *)
Definition load_messages (topic mode : string) (disk : gmap string json) : json :=
  match disk !! topic_file topic mode with
  | None => JArr []
  | Some doc => doc
  end.

(** Reading a loaded document as [(message, message_id)] pairs, as the
    unpacking [for msg, msgid in msgs] and the tests' [tuple(msg)] do. *)
Definition as_pair (v : json) : option (json * json) :=
  match v with
  | JArr [m; i] => Some (m, i)
  | _ => None
  end.

Definition as_pairs (doc : json) : option messages :=
  match doc with
  | JArr items => mapM as_pair items
  | _ => None
  end.

(** ** broker.py: the state *)

(** A [StreamWriter], identified by its connection. *)
Abbreviation handle := nat (only parsing).

Inductive mode : Type := Pubsub | Queue.

(** Where the coroutine [handle_client] of a connection stands: awaiting
    [reader.read], inside one of the two [while writer in ...: sleep] loops,
    or finished. *)
Inductive cstate : Type :=
  | Reading
  | Waiting (m : mode) (k : key)
  | Closed.

(** The four [defaultdict]s of the broker (an absent key reads as the empty
    queue or list, as [defaultdict] gives it), the data directory, what has
    been written to the clients, the lost transports, and the coroutines. *)
Record world : Type := World {
  queues : gmap key messages;
  ptp_queues : gmap key messages;
  subscribers : gmap key (list handle);
  ptp_consumers : gmap key (list handle);
  disk : gmap string json;
  wire : list (handle * record);
  down : gset handle;
  conns : gmap handle cstate
}.

Definition set_queues (f : gmap key messages → gmap key messages) (w : world) : world :=
  World (f (queues w)) (ptp_queues w) (subscribers w) (ptp_consumers w)
        (disk w) (wire w) (down w) (conns w).

Definition set_ptp_queues (f : gmap key messages → gmap key messages) (w : world) : world :=
  World (queues w) (f (ptp_queues w)) (subscribers w) (ptp_consumers w)
        (disk w) (wire w) (down w) (conns w).

Definition set_subscribers (f : gmap key (list handle) → gmap key (list handle))
    (w : world) : world :=
  World (queues w) (ptp_queues w) (f (subscribers w)) (ptp_consumers w)
        (disk w) (wire w) (down w) (conns w).

Definition set_ptp_consumers (f : gmap key (list handle) → gmap key (list handle))
    (w : world) : world :=
  World (queues w) (ptp_queues w) (subscribers w) (f (ptp_consumers w))
        (disk w) (wire w) (down w) (conns w).

Definition set_disk (f : gmap string json → gmap string json) (w : world) : world :=
  World (queues w) (ptp_queues w) (subscribers w) (ptp_consumers w)
        (f (disk w)) (wire w) (down w) (conns w).

Definition set_wire (f : list (handle * record) → list (handle * record))
    (w : world) : world :=
  World (queues w) (ptp_queues w) (subscribers w) (ptp_consumers w)
        (disk w) (f (wire w)) (down w) (conns w).

Definition set_down (f : gset handle → gset handle) (w : world) : world :=
  World (queues w) (ptp_queues w) (subscribers w) (ptp_consumers w)
        (disk w) (wire w) (f (down w)) (conns w).

Definition set_conns (f : gmap handle cstate → gmap handle cstate) (w : world) : world :=
  World (queues w) (ptp_queues w) (subscribers w) (ptp_consumers w)
        (disk w) (wire w) (down w) (f (conns w)).

(** The records written to [h] so far, oldest first. *)
Definition inbox (h : handle) (w : world) : list record :=
  (filter (λ x, x.1 = h) (wire w)).*2.

(** ** Code that may raise *)

Inductive exn : Type :=
  | AttributeError
  | TypeError
  | ValueError
  | ConnectionError.

Inductive outcome (A : Type) : Type :=
  | Return (a : A)
  | Raise (e : exn).
Arguments Return {A} a.
Arguments Raise {A} e.

(** A statement: it changes the world and returns or raises. *)
Definition M (A : Type) : Type := world → outcome A * world.

#[global] Instance M_ret : MRet M := λ A a w, (Return a, w).

#[global] Instance M_bind : MBind M := λ A B f m w,
  match m w with
  | (Return a, w') => f a w'
  | (Raise e, w') => (Raise e, w')
  end.

Definition raise {A} (e : exn) : M A := λ w, (Raise e, w).
Definition gets {A} (f : world → A) : M A := λ w, (Return (f w), w).
Definition modify (f : world → world) : M unit := λ w, (Return (), f w).

(** [try: body / except Exception: handler]. *)
Definition try_except {A} (body : M A) (handler : exn → M A) : M A := λ w,
  match body w with
  | (Return a, w') => (Return a, w')
  | (Raise e, w') => handler e w'
  end.

(** [for x in l: f(x)]. *)
Fixpoint for_each {A} (l : list A) (f : A → M unit) : M unit :=
  match l with
  | [] => mret ()
  | x :: rest => f x;; for_each rest f
  end.

(** [h.write(encode_message(r)); await h.drain()]. *)
Definition write (h : handle) (r : record) : M unit := λ w,
  if decide (h ∈ down w) then (Raise ConnectionError, w)
  else (Return (), set_wire (λ l, l ++ [(h, r)]) w).

(** [l.remove(x)]: drops the first occurrence; [None] is [ValueError]. *)
Fixpoint list_remove (x : handle) (l : list handle) : option (list handle) :=
  match l with
  | [] => None
  | y :: rest => if decide (x = y) then Some rest else (y ::.) <$> list_remove x rest
  end.

(** Indexing a [defaultdict] with [topic]: unhashable values raise. *)
Definition index (topic : json) : M scalar :=
  match hashable topic with
  | Some t => mret t
  | None => raise TypeError
  end.

(** [save_messages(topic, msgs, mode)] from the broker. *)
Definition save (t : scalar) (msgs : messages) (mode : string) : M unit :=
  modify (set_disk (save_messages (py_str t) msgs mode)).

(** ** broker.py: the operations *)

(** [self.subscribers[topic].remove(subscriber)]. *)
Definition unsubscribe (k : key) (subscriber : handle) : M unit :=
  l ← gets (λ w, subscribers w !!! k);
  match list_remove subscriber l with
  | Some l' => modify (set_subscribers <[k := l']>)
  | None => raise ValueError
  end.

(** [self.ptp_consumers[topic].remove(consumer)]. *)
Definition deregister_consumer (k : key) (consumer : handle) : M unit :=
  l ← gets (λ w, ptp_consumers w !!! k);
  match list_remove consumer l with
  | Some l' => modify (set_ptp_consumers <[k := l']>)
  | None => raise ValueError
  end.

Definition notify_subscribers (topic message message_id : json) : M unit :=
  t ← index topic;
  subs ← gets (λ w, subscribers w !!! dict_key t);
  for_each subs (λ subscriber,
    try_except
      (write subscriber (RMessage topic message message_id))
      (λ _, unsubscribe (dict_key t) subscriber)).

Definition notify_ptp_consumer (topic : json) : M unit :=
  t ← index topic;
  pending ← gets (λ w, ptp_queues w !!! dict_key t);
  consumers ← gets (λ w, ptp_consumers w !!! dict_key t);
  match pending, consumers with
  | (msg, message_id) :: rest, consumer :: _ =>
      modify (set_ptp_queues <[dict_key t := rest]>);;
      try_except
        (write consumer (RMessage topic msg message_id);;
         save t rest "queue")
        (λ _, deregister_consumer (dict_key t) consumer)
  | _, _ => mret ()
  end.

(** The replay loop of a new subscriber: the first failed write ends it. *)
Fixpoint replay (writer : handle) (topic : json) (backlog : messages) : M unit :=
  match backlog with
  | [] => mret ()
  | (msg, msgid) :: rest =>
      sent ← try_except
               (write writer (RMessage topic msg msgid);; mret true)
               (λ _, mret false);
      if sent : bool then replay writer topic rest else mret ()
  end.

(** How one pass of the [while True] loop of [handle_client] ends. *)
Inductive next : Type :=
  | Continue
  | Break
  | Block (m : mode) (k : key).

(** One pass of the loop, for the outcome [data] of the read; [fresh] is
    what [generate_message_id()] returns if it is called. *)
Definition handle_client_body (fresh : string) (writer : handle) (data : input) : M next :=
  match data with
  | EOF => mret Break
  | ReadError => raise ConnectionError
  | Malformed e =>
      write writer (make_error (ProtocolErrorText e) JNull);;
      mret Continue
  | Decoded (JObj fields) =>
      let action := dict_get fields "action" JNull in
      let message_id := py_or (dict_get fields "message_id" JNull) (JStr fresh) in
      if str_eq action "publish" then
        let topic := dict_get fields "topic" JNull in
        let msg := dict_get fields "message" JNull in
        let mode := dict_get fields "mode" (JStr "pubsub") in
        (if str_eq mode "pubsub" then
           t ← index topic;
           modify (set_queues (λ q, <[dict_key t := q !!! dict_key t ++ [(msg, message_id)]]> q));;
           notify_subscribers topic msg message_id;;
           msgs ← gets (λ w, queues w !!! dict_key t);
           save t msgs "pubsub"
         else if str_eq mode "queue" then
           t ← index topic;
           modify (set_ptp_queues (λ q, <[dict_key t := q !!! dict_key t ++ [(msg, message_id)]]> q));;
           notify_ptp_consumer topic;;
           msgs ← gets (λ w, ptp_queues w !!! dict_key t);
           save t msgs "queue"
         else mret ());;
        write writer (make_ack message_id);;
        mret Continue
      else if str_eq action "subscribe" then
        let topic := dict_get fields "topic" JNull in
        let mode := dict_get fields "mode" (JStr "pubsub") in
        if str_eq mode "pubsub" then
          t ← index topic;
          modify (set_subscribers (λ s, <[dict_key t := s !!! dict_key t ++ [writer]]> s));;
          backlog ← gets (λ w, queues w !!! dict_key t);
          replay writer topic backlog;;
          mret (Block Pubsub (dict_key t))
        else if str_eq mode "queue" then
          t ← index topic;
          modify (set_ptp_consumers (λ s, <[dict_key t := s !!! dict_key t ++ [writer]]> s));;
          notify_ptp_consumer topic;;
          mret (Block Queue (dict_key t))
        else mret Continue
      else if str_eq action "ack" then mret Continue
      else
        write writer (make_error (UnknownAction action) message_id);;
        mret Continue
  | Decoded _ => raise AttributeError
  end.

(** [if writer in l: l.remove(writer)]. *)
Definition discard (writer : handle) (l : list handle) : list handle :=
  if bool_decide (writer ∈ l) then default l (list_remove writer l) else l.

(** The [finally] block of [handle_client]. *)
Definition handle_client_finally (writer : handle) (w : world) : world :=
  set_conns <[writer := Closed]>
    (set_ptp_consumers (fmap (discard writer))
       (set_subscribers (fmap (discard writer)) w)).

(** One pass of the loop inside its [try ... except ... finally]: the loop
    goes on, blocks in a [while writer in ...] loop, or ends in [finally]. *)
Definition handle_client (fresh : string) (writer : handle) (data : input) (w : world) : world :=
  match handle_client_body fresh writer data w with
  | (Return Continue, w') => w'
  | (Return (Block m k), w') => set_conns <[writer := Waiting m k]> w'
  | (Return Break, w') | (Raise _, w') => handle_client_finally writer w'
  end.

(** The list a blocked connection polls. *)
Definition registry (m : mode) (k : key) (w : world) : list handle :=
  match m with
  | Pubsub => subscribers w !!! k
  | Queue => ptp_consumers w !!! k
  end.

(** ** The broker as a transition system *)

Inductive event : Type :=
  | Accept (h : handle)                            (* a new connection *)
  | Recv (fresh : string) (h : handle) (data : input)  (* a read returns *)
  | Poll (h : handle)                              (* a [sleep(0.1)] returns *)
  | Cancel (h : handle)                            (* the task is cancelled *)
  | Drop (h : handle).                             (* a transport is lost *)

Definition step (e : event) (w : world) : option world :=
  match e with
  | Accept h =>
      match conns w !! h with
      | None => Some (set_conns <[h := Reading]> w)
      | Some _ => None
      end
  | Recv fresh h data =>
      match conns w !! h with
      | Some Reading => Some (handle_client fresh h data w)
      | _ => None
      end
  | Poll h =>
      match conns w !! h with
      | Some (Waiting m k) =>
          Some (if bool_decide (h ∈ registry m k w) then w
                else set_conns <[h := Reading]> w)
      | _ => None
      end
  | Cancel h =>
      match conns w !! h with
      | Some Reading | Some (Waiting _ _) => Some (handle_client_finally h w)
      | _ => None
      end
  | Drop h => Some (set_down (λ d, {[h]} ∪ d) w)
  end.

Fixpoint run (es : list event) (w : world) : option world :=
  match es with
  | [] => Some w
  | e :: rest =>
      match step e w with
      | Some w' => run rest w'
      | None => None
      end
  end.

(** The broker after [__init__]: no connection, no subscriber, no consumer;
    the queues hold what was loaded from the data directory. *)
Definition boot (q pq : gmap key messages) (d : gmap string json) : world :=
  World q pq ∅ ∅ d [] ∅ ∅.

Definition reachable (w : world) : Prop :=
  ∃ q pq d es, run es (boot q pq d) = Some w.

(** ** persistence.py and broker.py: deleting and restoring snapshots *)

(** [delete_messages]: the file is removed if it exists. *)
Definition delete_messages (topic mode : string) (disk : gmap string json)
    : gmap string json :=
  if bool_decide (is_Some (disk !! topic_file topic mode))
  then delete (topic_file topic mode) disk
  else disk.

(** [name[n:-5]]: the characters of [name] from position [n] up to the
    fifth from the end; empty when there are none. A [string] is read as its
    sequence of characters, one [ascii] each. *)
Definition strip (n : nat) (name : string) : string :=
  String.substring n (String.length name - 5 - n) name.

(** What iterating over a value gives: the items of a list, the
    one-character strings of a string, the keys of a dict; the other values
    cannot be iterated ([TypeError]). *)
Definition py_iter (v : json) : option (list json) :=
  match v with
  | JArr items => Some items
  | JStr s => Some ((λ c, JStr (String c "")) <$> String.list_ascii_of_string s)
  | JObj fields => Some ((λ f, JStr f.1) <$> fields)
  | JNull | JBool _ | JInt _ => None
  end.

(** [msg, msgid = v]: [v] must iterate to exactly two values. *)
Definition unpack2 (v : json) : option (json * json) :=
  match py_iter v with
  | Some [a; b] => Some (a, b)
  | _ => None
  end.

(** One turn of the loop of [_load_persistent_queues], for the directory
    entry [name]. A pub/sub file is unpacked element by element and appended
    to the backlog of its topic; a queue file is appended to the pending FIFO
    of its queue. [None]: the turn raises (a document that cannot be
    iterated, an element that cannot be unpacked), or a queue file holds an
    element other than a two-element list, which Python would store as it is
    and which a pending FIFO of pairs cannot hold. *)
Definition load_entry (disk : gmap string json) (name : string)
    (qs : gmap key messages * gmap key messages)
    : option (gmap key messages * gmap key messages) :=
  if String.prefix "pubsub_" name then
    let t := strip 7 name in
    items ← py_iter (load_messages t "pubsub" disk);
    msgs ← mapM unpack2 items;
    Some (<[KStr t := qs.1 !!! KStr t ++ msgs]> qs.1, qs.2)
  else if String.prefix "queue_" name then
    let t := strip 6 name in
    msgs ← as_pairs (load_messages t "queue" disk);
    Some (qs.1, <[KStr t := qs.2 !!! KStr t ++ msgs]> qs.2)
  else Some qs.

(** [_load_persistent_queues], on the names [os.listdir(DATA_DIR)] gives, in
    the order it gives them. *)
Fixpoint load_persistent_queues (disk : gmap string json) (listing : list string)
    (qs : gmap key messages * gmap key messages)
    : option (gmap key messages * gmap key messages) :=
  match listing with
  | [] => Some qs
  | name :: rest =>
      match load_entry disk name qs with
      | Some qs' => load_persistent_queues disk rest qs'
      | None => None
      end
  end.

(** [SimpleMessageBroker.__init__]: empty registries, then the snapshots. *)
Definition broker_init (listing : list string) (disk : gmap string json) : option world :=
  qs ← load_persistent_queues disk listing (∅, ∅);
  Some (boot qs.1 qs.2 disk).

(** The directory holds only snapshots written by [save_messages] for the
    two modes of the broker, and [listing] names each of them once. *)
Definition snapshot_directory (listing : list string) (disk : gmap string json) : Prop :=
  NoDup listing
  ∧ ∀ name, name ∈ listing →
      ∃ t m X, (m = "pubsub" ∨ m = "queue")
               ∧ name = topic_file t m
               ∧ disk !! name = Some (json_dump X).

(** The messages a snapshot file holds, none if the file is not listed. *)
Definition snapshot_of (listing : list string) (disk : gmap string json)
    (t mode : string) : messages :=
  if bool_decide (topic_file t mode ∈ listing)
  then default [] (as_pairs (load_messages t mode disk))
  else [].

(** ** Vocabulary of the statements *)

(** The fields of a request, as [handle_client] reads them. *)
Definition action_of (fields : list (string * json)) : json :=
  dict_get fields "action" JNull.
Definition topic_of (fields : list (string * json)) : json :=
  dict_get fields "topic" JNull.
Definition payload_of (fields : list (string * json)) : json :=
  dict_get fields "message" JNull.
Definition mode_of (fields : list (string * json)) : json :=
  dict_get fields "mode" (JStr "pubsub").

(** [message.get('message_id') or generate_message_id()]. *)
Definition message_id_of (fresh : string) (fields : list (string * json)) : json :=
  py_or (dict_get fields "message_id" JNull) (JStr fresh).

(** The handles of [l] whose transport still works, in the order of [l]. *)
Definition live (w : world) (l : list handle) : list handle :=
  filter (λ h, h ∉ down w) l.

(** One delivery of the same message to each handle of [l], in order. *)
Definition deliveries (topic message message_id : json) (l : list handle)
    : list (handle * record) :=
  (λ h, (h, RMessage topic message message_id)) <$> l.

(** The replay of a backlog to [h], in order. *)
Definition replayed (topic : json) (h : handle) (backlog : messages)
    : list (handle * record) :=
  (λ m, (h, RMessage topic m.1 m.2)) <$> backlog.

(** [h] is in no subscriber list and in no consumer list. *)
Definition unregistered (h : handle) (w : world) : Prop :=
  ∀ k, (h ∉ subscribers w !!! k) ∧ (h ∉ ptp_consumers w !!! k).

(** A handle is registered only while its coroutine waits in the matching
    [while writer in ...] loop, and at most once. *)
Definition registered_while_waiting (w : world) : Prop :=
  (∀ h k, h ∈ subscribers w !!! k → conns w !! h = Some (Waiting Pubsub k))
  ∧ (∀ h k, h ∈ ptp_consumers w !!! k → conns w !! h = Some (Waiting Queue k))
  ∧ (∀ k, NoDup (subscribers w !!! k))
  ∧ (∀ k, NoDup (ptp_consumers w !!! k)).

(** From [w] to [w'] no handle was registered, no coroutine moved, and
    nothing was written except to [writer] and to registered handles. *)
Definition calm (writer : handle) (w w' : world) : Prop :=
  conns w' = conns w
  ∧ down w' = down w
  ∧ (∀ k, subscribers w' !!! k `sublist_of` subscribers w !!! k)
  ∧ (∀ k, ptp_consumers w' !!! k `sublist_of` ptp_consumers w !!! k)
  ∧ (∀ x, x ≠ writer → unregistered x w → inbox x w' = inbox x w).

(** The world [w] with its subscriber lists and its wire replaced: the shape
    of the world while a fan-out runs. *)
Definition fanning (w : world) (S : gmap key (list handle))
    (W : list (handle * record)) : world :=
  World (queues w) (ptp_queues w) S (ptp_consumers w) (disk w) W (down w) (conns w).

(** A request object with the given action and mode, about [topic]. *)
Definition is_request (action mode : string) (topic : json)
    (fields : list (string * json)) : Prop :=
  action_of fields = JStr action
  ∧ mode_of fields = JStr mode
  ∧ topic_of fields = topic.

(** A sequence of requests, each given with the connection it arrives on and
    with what [generate_message_id()] would return for it. *)
Abbreviation requests := (list (string * handle * list (string * json))).




(** How a pass of the loop of [writer] can lead from [w] to [w_end]: it is
    calm, possibly after [writer] was registered as a subscriber or as a
    consumer (the coroutine then waits), and possibly followed by the
    [finally] block. *)
Definition pass_shape (writer : handle) (w w_end : world) : Prop :=
  ∃ w',
    (calm writer w w'
     ∧ (w_end = w' ∨ w_end = handle_client_finally writer w'))
    ∨ (∃ k, calm writer (set_subscribers (λ S, <[k := S !!! k ++ [writer]]> S) w) w'
            ∧ w_end = set_conns <[writer := Waiting Pubsub k]> w')
    ∨ (∃ k, calm writer (set_ptp_consumers (λ S, <[k := S !!! k ++ [writer]]> S) w) w'
            ∧ w_end = set_conns <[writer := Waiting Queue k]> w').

(** * Properties *)

(** ** Python helpers *)

Lemma str_eq_true v s : str_eq v s = true ↔ v = JStr s.
Proof.
  destruct v; simpl; try (split; [discriminate | congruence]).
  rewrite String.eqb_eq. split; congruence.
Qed.

Lemma truthy_JStr s : s ≠ "" → truthy (JStr s) = true.
Proof. intros Hs. simpl. destruct (String.eqb_spec s ""); [contradiction | reflexivity]. Qed.

Lemma truthy_py_or x s : s ≠ "" → truthy (py_or x (JStr s)) = true.
Proof.
  intros Hs. unfold py_or. destruct (truthy x) eqn:Hx; [exact Hx | by apply truthy_JStr].
Qed.

Lemma list_remove_head x l : list_remove x (x :: l) = Some l.
Proof. simpl. by rewrite decide_True. Qed.

Lemma list_remove_app_notin x l1 l2 :
  x ∉ l1 → list_remove x (l1 ++ x :: l2) = Some (l1 ++ l2).
Proof.
  induction l1 as [|y l1 IH]; intros Hx; simpl.
  - by rewrite decide_True.
  - apply not_elem_of_cons in Hx as [Hxy Hx].
    rewrite decide_False by done. by rewrite IH.
Qed.

Lemma list_remove_sublist x l l' : list_remove x l = Some l' → l' `sublist_of` l.
Proof.
  revert l'. induction l as [|y l IH]; intros l'; simpl; [discriminate|].
  destruct (decide (x = y)) as [->|Hne].
  - intros [= <-]. by apply sublist_cons.
  - destruct (list_remove x l) as [l0|]; simpl; [|discriminate].
    intros [= <-]. apply sublist_skip. by apply IH.
Qed.

Lemma list_remove_NoDup x l l' :
  NoDup l → list_remove x l = Some l' → x ∉ l'.
Proof.
  revert l'. induction l as [|y l IH]; intros l' Hnd; simpl; [discriminate|].
  apply NoDup_cons in Hnd as [Hy Hnd].
  destruct (decide (x = y)) as [->|Hne].
  - by intros [= <-].
  - destruct (list_remove x l) as [l0|] eqn:Hr; simpl; [|discriminate].
    intros [= <-]. apply not_elem_of_cons. split; [done | by apply IH].
Qed.

Lemma list_remove_None x l : list_remove x l = None ↔ x ∉ l.
Proof.
  induction l as [|y l IH]; simpl.
  - split; [intros _; apply not_elem_of_nil | done].
  - destruct (decide (x = y)) as [->|Hne].
    + split; [discriminate | intros []; apply list_elem_of_here].
    + rewrite not_elem_of_cons. destruct (list_remove x l); simpl.
      * split; [discriminate | intros [_ H]; by apply IH in H].
      * split; [intros _; split; [done | by apply IH] | done].
Qed.

Lemma discard_sublist h l : discard h l `sublist_of` l.
Proof.
  unfold discard. case_bool_decide; [|done].
  destruct (list_remove h l) as [l'|] eqn:Hr; simpl; [|done].
  by eapply list_remove_sublist.
Qed.

Lemma discard_NoDup h l : NoDup l → h ∉ discard h l.
Proof.
  intros Hnd. unfold discard. case_bool_decide as Hin; [|done].
  destruct (list_remove h l) as [l'|] eqn:Hr; simpl.
  - by eapply list_remove_NoDup.
  - by apply list_remove_None in Hr.
Qed.

(** ** persistence.py *)

Lemma as_pairs_json_dump (X : messages) : as_pairs (json_dump X) = Some X.
Proof.
  unfold as_pairs, json_dump. apply mapM_Some.
  induction X as [|[m i] X IH]; simpl; constructor; [reflexivity | exact IH].
Qed.



(** A save to one file leaves the other files alone. *)
Lemma load_save_other topic mode topic' mode' (X : messages) (d : gmap string json) :
  topic_file topic' mode' ≠ topic_file topic mode →
  load_messages topic' mode' (save_messages topic X mode d) = load_messages topic' mode' d.
Proof.
  intros Hne. unfold load_messages, save_messages. by rewrite lookup_insert_ne.
Qed.

(** ** Statements *)

Ltac unfold_M :=
  unfold mbind, M_bind, mret, M_ret, raise, gets, modify, try_except, save, index in *.

Lemma write_up h r w :
  h ∉ down w → write h r w = (Return (), set_wire (λ l, l ++ [(h, r)]) w).
Proof. intros Hup. unfold write. by rewrite decide_False. Qed.

Lemma write_down h r w :
  h ∈ down w → write h r w = (Raise ConnectionError, w).
Proof. intros Hdown. unfold write. by rewrite decide_True. Qed.

(** ** The request loop: malformed requests, unknown actions, unknown modes *)

(** C7: for every malformed request on a connection whose stream can be
    written, the broker replies with an error record that carries no message
    id, nothing else changes, and the connection stays in its request loop:
    every further read on it is processed. *)
Theorem malformed_request_error_and_continue (w : world) fresh (h : handle) e :
  conns w !! h = Some Reading →
  h ∉ down w →
  let reply := make_error (ProtocolErrorText e) JNull in
  let w' := set_wire (λ l, l ++ [(h, reply)]) w in
  step (Recv fresh h (Malformed e)) w = Some w'
  ∧ reply = RError (ProtocolErrorText e) None
  ∧ conns w' !! h = Some Reading
  ∧ ∀ fresh' data,
      step (Recv fresh' h data) w' = Some (handle_client fresh' h data w').
Proof.
  intros Hr Hup reply w'. repeat split.
  - simpl. rewrite Hr. unfold handle_client, handle_client_body. unfold_M.
    by rewrite write_up.
  - exact Hr.
  - intros fresh' data. simpl. by rewrite Hr.
Qed.

Lemma malformed_request_error_and_continue_witness :
  let w := set_conns <[7 := Reading]> (boot ∅ ∅ ∅) in
  step (Recv "id-0" 7 (Malformed "Invalid message format: x")) w
  = Some (set_wire (λ l, l ++ [(7, RError (ProtocolErrorText "Invalid message format: x") None)]) w).
Proof.
  intros w.
  refine (proj1 (malformed_request_error_and_continue w "id-0" 7 _ _ _)).
  - reflexivity.
  - simpl. apply not_elem_of_empty.
Defined.

Section unknown.
Context (w : world) (fresh : string) (h : handle) (fields : list (string * json)).

(** The reply to a request whose action is none of the three known ones:
    the id is the request's when it is truthy, the generated one when not. *)
Lemma unknown_action_reply :
  str_eq (action_of fields) "publish" = false →
  str_eq (action_of fields) "subscribe" = false →
  str_eq (action_of fields) "ack" = false →
  h ∉ down w →
  handle_client fresh h (Decoded (JObj fields)) w
  = set_wire (λ l, l ++ [(h, make_error (UnknownAction (action_of fields))
                                 (message_id_of fresh fields))]) w.
Proof.
  intros Hp Hs Ha Hup. unfold handle_client, handle_client_body.
  fold (action_of fields) (message_id_of fresh fields).
  rewrite Hp, Hs, Ha. unfold_M.
  by rewrite write_up.
Qed.

(** C8 (amended): for every request that is a JSON object and whose action
    is not publish, subscribe or ack, the broker replies with an error
    record that always carries a message id: the request's if the request
    carried a truthy one, a newly generated one otherwise. *)
Theorem unknown_action_error_carries_id :
  str_eq (action_of fields) "publish" = false →
  str_eq (action_of fields) "subscribe" = false →
  str_eq (action_of fields) "ack" = false →
  h ∉ down w →
  fresh ≠ "" →
  handle_client fresh h (Decoded (JObj fields)) w
  = set_wire (λ l, l ++ [(h, RError (UnknownAction (action_of fields))
                               (Some (if truthy (dict_get fields "message_id" JNull)
                                      then dict_get fields "message_id" JNull
                                      else JStr fresh)))]) w.
Proof.
  intros Hp Hs Ha Hup Hfresh. rewrite unknown_action_reply by done.
  unfold make_error, message_id_of. rewrite truthy_py_or by done. reflexivity.
Qed.

(** C10: for every publish request whose mode is neither "pubsub" nor
    "queue", sent on a connection whose stream can be written, the broker
    changes no backlog, no queue, no subscriber or consumer list and no
    snapshot; the only effect is the acknowledgment written to the sender,
    carrying the message id. *)
Theorem publish_unknown_mode_only_acks :
  str_eq (action_of fields) "publish" = true →
  str_eq (mode_of fields) "pubsub" = false →
  str_eq (mode_of fields) "queue" = false →
  h ∉ down w →
  handle_client fresh h (Decoded (JObj fields)) w
  = set_wire (λ l, l ++ [(h, RAck (message_id_of fresh fields))]) w.
Proof.
  intros Hp Hm1 Hm2 Hup. unfold handle_client, handle_client_body.
  fold (action_of fields) (message_id_of fresh fields) (mode_of fields).
  rewrite Hp, Hm1, Hm2. unfold_M.
  by rewrite write_up.
Qed.
End unknown.

Lemma unknown_action_error_carries_id_witness :
  let w := set_conns <[7 := Reading]> (boot ∅ ∅ ∅) in
  handle_client "id-0" 7 (Decoded (JObj [("action", JStr "rename"); ("message_id", JStr "m-1")])) w
  = set_wire (λ l, l ++ [(7, RError (UnknownAction (JStr "rename")) (Some (JStr "m-1")))]) w.
Proof.
  intros w.
  refine (unknown_action_error_carries_id w "id-0" 7
            [("action", JStr "rename"); ("message_id", JStr "m-1")] _ _ _ _ _).
  - reflexivity.
  - reflexivity.
  - reflexivity.
  - simpl. apply not_elem_of_empty.
  - discriminate.
Defined.

(** C8, as stated, fails: a request with an unknown action and no message id
    is answered with an error record that carries an id, the generated one. *)
Lemma unknown_action_without_id_counterexample :
  let w := set_conns <[7 := Reading]> (boot ∅ ∅ ∅) in
  let fields := [("action", JStr "rename")] in
  dict_get fields "message_id" JNull = JNull
  ∧ (7 ∉ down w)
  ∧ inbox 7 (handle_client "id-0" 7 (Decoded (JObj fields)) w)
    = [RError (UnknownAction (JStr "rename")) (Some (JStr "id-0"))]
  ∧ ¬ (∃ err, inbox 7 (handle_client "id-0" 7 (Decoded (JObj fields)) w)
              = [RError err None]).
Proof.
  split; [reflexivity|]. split; [simpl; apply not_elem_of_empty|].
  split; [by vm_compute|]. intros [err Herr]. vm_compute in Herr. discriminate.
Qed.

Lemma publish_unknown_mode_only_acks_witness :
  let w := set_conns <[7 := Reading]> (boot ∅ ∅ ∅) in
  handle_client "id-0" 7
    (Decoded (JObj [("action", JStr "publish"); ("topic", JStr "t1");
                    ("message", JStr "hello"); ("mode", JStr "broadcast")])) w
  = set_wire (λ l, l ++ [(7, RAck (JStr "id-0"))]) w.
Proof.
  intros w.
  refine (publish_unknown_mode_only_acks w "id-0" 7
            [("action", JStr "publish"); ("topic", JStr "t1");
             ("message", JStr "hello"); ("mode", JStr "broadcast")] _ _ _ _).
  - reflexivity.
  - reflexivity.
  - reflexivity.
  - simpl. apply not_elem_of_empty.
Defined.

(** ** Point-to-point hand-off *)

Section ptp.
Context (w : world) (topic : json) (t : scalar).
Hypothesis topic_hashable : hashable topic = Some t.
Local Abbreviation k := (dict_key t).

(** Nothing pending or nobody to deliver to: nothing happens. *)
Lemma notify_ptp_consumer_idle :
  ptp_queues w !!! k = [] ∨ ptp_consumers w !!! k = [] →
  notify_ptp_consumer topic w = (Return (), w).
Proof using topic_hashable.
  intros Hidle. unfold notify_ptp_consumer, index. rewrite topic_hashable. unfold_M.
  destruct Hidle as [-> | ->]; [done|].
  by destruct (ptp_queues w !!! k) as [|[??]?].
Qed.

(** The head is popped, written to the first consumer, and the rest saved. *)
Lemma notify_ptp_consumer_delivered msg message_id rest consumer others :
  ptp_queues w !!! k = (msg, message_id) :: rest →
  ptp_consumers w !!! k = consumer :: others →
  consumer ∉ down w →
  notify_ptp_consumer topic w
  = (Return (),
     set_disk (save_messages (py_str t) rest "queue")
       (set_wire (λ l, l ++ [(consumer, RMessage topic msg message_id)])
          (set_ptp_queues <[k := rest]> w))).
Proof using topic_hashable.
  intros Hq Hc Hup. unfold notify_ptp_consumer, index. rewrite topic_hashable. unfold_M.
  rewrite Hq, Hc. by rewrite write_up.
Qed.

(** The head is popped, the write fails, the consumer is removed; the
    message is not put back and nothing is saved. *)
Lemma notify_ptp_consumer_failed msg message_id rest consumer others :
  ptp_queues w !!! k = (msg, message_id) :: rest →
  ptp_consumers w !!! k = consumer :: others →
  consumer ∈ down w →
  notify_ptp_consumer topic w
  = (Return (),
     set_ptp_consumers <[k := others]> (set_ptp_queues <[k := rest]> w)).
Proof using topic_hashable.
  intros Hq Hc Hdown. unfold notify_ptp_consumer, index. rewrite topic_hashable. unfold_M.
  rewrite Hq, Hc. rewrite write_down by done.
  unfold deregister_consumer. unfold_M. simpl. rewrite Hc.
  by rewrite list_remove_head.
Qed.


End ptp.

(** ** Fan-out *)

Section fanout.
Context (w : world) (topic message message_id : json) (t : scalar).
Hypothesis topic_hashable : hashable topic = Some t.
Local Abbreviation k := (dict_key t).

(** The loop of [notify_subscribers], from any point on: [seen] are the
    handles already served and kept, [rest] the ones still to serve. *)
Lemma notify_subscribers_loop rest :
  ∀ seen S W,
    S !!! k = seen ++ rest →
    (∀ x, x ∈ seen → x ∉ down w) →
    ∃ S',
      for_each rest (λ subscriber,
        try_except (write subscriber (RMessage topic message message_id))
                   (λ _, unsubscribe k subscriber)) (fanning w S W)
      = (Return (), fanning w S' (W ++ deliveries topic message message_id (live w rest)))
      ∧ S' !!! k = seen ++ live w rest
      ∧ ∀ k', k' ≠ k → S' !!! k' = S !!! k'.
Proof.
  induction rest as [|x rest IH]; intros seen S W HS Hseen.
  - exists S. unfold live, deliveries. simpl. rewrite app_nil_r in HS.
    rewrite !app_nil_r. repeat split; done.
  - simpl. unfold mbind, M_bind, try_except.
    destruct (decide (x ∈ down w)) as [Hdown|Hup].
    + rewrite write_down by done.
      unfold unsubscribe. unfold_M. simpl. rewrite HS.
      rewrite list_remove_app_notin by (intros Hx; by apply Hseen in Hx).
      destruct (IH seen (<[k := seen ++ rest]> S) W) as (S' & Hrun & Hk & Hother).
      { by rewrite lookup_total_insert_eq. }
      { done. }
      exists S'. unfold live. rewrite filter_cons_False by (intros Hx; done).
      split; [exact Hrun|]. split; [exact Hk|].
      intros k' Hk'. rewrite Hother by done. by rewrite lookup_total_insert_ne.
    + rewrite write_up by done. simpl.
      destruct (IH (seen ++ [x]) S (W ++ [(x, RMessage topic message message_id)]))
        as (S' & Hrun & Hk & Hother).
      { by rewrite <- app_assoc. }
      { intros y [Hy | ->%list_elem_of_singleton]%elem_of_app; [by apply Hseen | done]. }
      exists S'. unfold live. rewrite filter_cons_True by done.
      fold (live w rest). unfold deliveries at 1. simpl.
      fold (deliveries topic message message_id (live w rest)).
      split.
      { etrans; [exact Hrun|]. by rewrite <- app_assoc. }
      split; [by rewrite Hk, <- app_assoc | exact Hother].
Qed.

(** [notify_subscribers] never raises; it writes the message to the live
    subscribers, in list order, and keeps exactly them in the list. *)
Lemma notify_subscribers_spec :
  ∃ S',
    notify_subscribers topic message message_id w
    = (Return (),
       fanning w S' (wire w ++ deliveries topic message message_id
                                 (live w (subscribers w !!! k))))
    ∧ S' !!! k = live w (subscribers w !!! k)
    ∧ ∀ k', k' ≠ k → S' !!! k' = subscribers w !!! k'.
Proof using topic_hashable.
  unfold notify_subscribers, index. rewrite topic_hashable.
  unfold mbind at 1, M_bind at 1, mret at 1, M_ret at 1.
  unfold mbind at 1, M_bind at 1, gets.
  destruct (notify_subscribers_loop (subscribers w !!! k) [] (subscribers w) (wire w))
    as (S' & Hrun & Hk & Hother).
  { done. }
  { intros x Hx. by apply elem_of_nil in Hx. }
  exists S'. replace (fanning w (subscribers w) (wire w)) with w in Hrun by by destruct w.
  done.
Qed.
End fanout.

(** ** The [finally] block *)

Lemma discard_nil h : discard h [] = [].
Proof. unfold discard. by case_bool_decide. Qed.

Lemma discard_absent h l : h ∉ l → discard h l = l.
Proof. intros Hh. unfold discard. by rewrite bool_decide_eq_false_2. Qed.

Lemma lookup_total_discard h (S : gmap key (list handle)) k :
  (discard h <$> S) !!! k = discard h (S !!! k).
Proof.
  rewrite lookup_total_fmap, lookup_total_alt.
  destruct (S !! k); simpl; [done | by rewrite discard_nil].
Qed.

Lemma finally_subscribers h w k :
  subscribers (handle_client_finally h w) !!! k = discard h (subscribers w !!! k).
Proof. simpl. apply lookup_total_discard. Qed.

Lemma finally_ptp_consumers h w k :
  ptp_consumers (handle_client_finally h w) !!! k = discard h (ptp_consumers w !!! k).
Proof. simpl. apply lookup_total_discard. Qed.

(** How a pass that ends with a write to the sender ends. *)
Lemma reply_and_continue writer r w :
  match (write writer r;; mret Continue) w with
  | (Return Continue, w') => w'
  | (Return (Block m k), w') => set_conns <[writer := Waiting m k]> w'
  | (Return Break, w') | (Raise _, w') => handle_client_finally writer w'
  end
  = if decide (writer ∈ down w) then handle_client_finally writer w
    else set_wire (λ l, l ++ [(writer, r)]) w.
Proof.
  unfold_M. unfold write. by destruct (decide (writer ∈ down w)).
Qed.

Ltac finish_reply :=
  cbv [mbind M_bind mret M_ret];
  lazymatch goal with
  | |- context [write ?h ?r ?w2] => exact (reply_and_continue h r w2)
  end.

(** ** Publishing to a topic *)

Section publish_pubsub.
Context (w : world) (fresh : string) (p : handle) (fields : list (string * json)).
Context (t : scalar).
Hypothesis is_publish : str_eq (action_of fields) "publish" = true.
Hypothesis is_pubsub : str_eq (mode_of fields) "pubsub" = true.
Hypothesis topic_hashable : hashable (topic_of fields) = Some t.
Local Abbreviation k := (dict_key t).
Local Abbreviation msg := (payload_of fields).
Local Abbreviation mid := (message_id_of fresh fields).
Local Abbreviation subs := (subscribers w !!! dict_key t).

(** The pass of the loop for a pub/sub publish, up to the acknowledgment. *)
Lemma publish_pubsub_body :
  ∃ S',
    S' !!! k = live w subs
    ∧ (∀ k', k' ≠ k → S' !!! k' = subscribers w !!! k')
    ∧ handle_client fresh p (Decoded (JObj fields)) w
      = let w2 := set_disk (save_messages (py_str t) (queues w !!! k ++ [(msg, mid)]) "pubsub")
                    (fanning (set_queues (λ q, <[k := q !!! k ++ [(msg, mid)]]> q) w) S'
                       (wire w ++ deliveries (topic_of fields) msg mid (live w subs))) in
        if decide (p ∈ down w) then handle_client_finally p w2
        else set_wire (λ l, l ++ [(p, make_ack mid)]) w2.
Proof using is_publish is_pubsub topic_hashable.
  destruct (notify_subscribers_spec
              (set_queues (λ q, <[k := q !!! k ++ [(msg, mid)]]> q) w)
              (topic_of fields) msg mid t topic_hashable) as (S' & Hrun & Hk & Hother).
  exists S'. split; [exact Hk|]. split; [exact Hother|].
  unfold handle_client, handle_client_body.
  fold (action_of fields) (mode_of fields) (topic_of fields) msg mid.
  rewrite is_publish, is_pubsub. unfold index. rewrite topic_hashable.
  cbv [mbind M_bind mret M_ret modify gets save]. rewrite Hrun.
  cbv beta iota. simpl queues. rewrite lookup_total_insert_eq.
  finish_reply.
Qed.
End publish_pubsub.

Section publish_pubsub_effects.
Context (w : world) (fresh : string) (p : handle) (fields : list (string * json)).
Context (t : scalar).
Hypothesis is_publish : str_eq (action_of fields) "publish" = true.
Hypothesis is_pubsub : str_eq (mode_of fields) "pubsub" = true.
Hypothesis topic_hashable : hashable (topic_of fields) = Some t.
Local Abbreviation k := (dict_key t).
Local Abbreviation msg := (payload_of fields).
Local Abbreviation mid := (message_id_of fresh fields).
Local Abbreviation subs := (subscribers w !!! dict_key t).
Local Abbreviation w' := (handle_client fresh p (Decoded (JObj fields)) w).

(** What a pub/sub publish does, whether or not the publisher can be
    answered. *)
Lemma publish_pubsub_effects :
  queues w' !!! k = queues w !!! k ++ [(msg, mid)]
  ∧ wire w' = wire w ++ deliveries (topic_of fields) msg mid (live w subs)
                     ++ (if decide (p ∈ down w) then [] else [(p, RAck mid)])
  ∧ subscribers w' !!! k
    = (if decide (p ∈ down w) then discard p (live w subs) else live w subs)
  ∧ down w' = down w.
Proof using is_publish is_pubsub topic_hashable.
  destruct (publish_pubsub_body w fresh p fields t) as (S' & Hk & _ & ->); try done.
  cbv zeta. destruct (decide (p ∈ down w)) as [Hdown|Hup].
  - rewrite finally_subscribers. simpl. rewrite lookup_total_insert_eq, Hk.
    by rewrite app_nil_r.
  - simpl. rewrite lookup_total_insert_eq, Hk. by rewrite <- app_assoc.
Qed.

End publish_pubsub_effects.


(** ** Subscribing to a topic *)

Lemma set_wire_nil w : set_wire (λ l, l ++ []) w = w.
Proof. destruct w. unfold set_wire. simpl. by rewrite app_nil_r. Qed.

Lemma set_wire_app w W1 W2 :
  set_wire (λ l, l ++ W2) (set_wire (λ l, l ++ W1) w) = set_wire (λ l, l ++ W1 ++ W2) w.
Proof. unfold set_wire. simpl. by rewrite <- app_assoc. Qed.

(** The replay loop never raises: it writes the whole backlog, in order, or
    nothing at all when the subscriber cannot be written to. *)
Lemma replay_spec writer topic backlog :
  ∀ w, replay writer topic backlog w
       = (Return (), if decide (writer ∈ down w) then w
                     else set_wire (λ l, l ++ replayed topic writer backlog) w).
Proof.
  induction backlog as [|[msg msgid] rest IH]; intros w.
  - simpl. unfold replayed. simpl. rewrite set_wire_nil.
    by destruct (decide (writer ∈ down w)).
  - simpl. cbv [mbind M_bind mret M_ret try_except].
    destruct (decide (writer ∈ down w)) as [Hdown|Hup].
    + by rewrite write_down.
    + rewrite write_up by done. rewrite IH. simpl down.
      rewrite decide_False by done. by rewrite set_wire_app.
Qed.

Lemma is_request_subscribe mode topic fields :
  is_request "subscribe" mode topic fields →
  str_eq (action_of fields) "publish" = false
  ∧ str_eq (action_of fields) "subscribe" = true
  ∧ str_eq (mode_of fields) mode = true.
Proof.
  intros (-> & -> & _). simpl. by rewrite String.eqb_refl.
Qed.

Lemma is_request_publish mode topic fields :
  is_request "publish" mode topic fields →
  str_eq (action_of fields) "publish" = true
  ∧ str_eq (mode_of fields) mode = true.
Proof.
  intros (-> & -> & _). simpl. by rewrite String.eqb_refl.
Qed.

Section subscribe_pubsub.
Context (w : world) (fresh : string) (s : handle) (fields : list (string * json)).
Context (topic : json) (t : scalar).
Hypothesis is_subscribe : is_request "subscribe" "pubsub" topic fields.
Hypothesis topic_hashable : hashable topic = Some t.
Local Abbreviation k := (dict_key t).

(** A pub/sub subscribe: the handle is appended to the subscriber list, the
    backlog is replayed to it, and the coroutine waits. *)
Lemma subscribe_pubsub_run :
  handle_client fresh s (Decoded (JObj fields)) w
  = set_conns <[s := Waiting Pubsub k]>
      (let w1 := set_subscribers (λ S, <[k := S !!! k ++ [s]]> S) w in
       if decide (s ∈ down w) then w1
       else set_wire (λ l, l ++ replayed topic s (queues w !!! k)) w1).
Proof using is_subscribe topic_hashable.
  destruct (is_request_subscribe _ _ _ is_subscribe) as (Hp & Hs & Hm).
  destruct is_subscribe as (_ & _ & Htopic).
  unfold handle_client, handle_client_body.
  fold (action_of fields) (mode_of fields) (topic_of fields).
  rewrite Hp, Hs, Hm, Htopic. unfold index. rewrite topic_hashable.
  cbv [mbind M_bind mret M_ret modify gets]. rewrite replay_spec.
  cbv beta iota zeta. simpl down. by destruct (decide (s ∈ down w)).
Qed.
End subscribe_pubsub.

(** ** Late subscribers *)

Section late_subscriber.
Context (topic : json) (t : scalar).
Hypothesis topic_hashable : hashable topic = Some t.
Local Abbreviation k := (dict_key t).


End late_subscriber.



(** ** Publishing to and consuming from a queue *)

Lemma notify_ptp_consumer_returns topic t w :
  hashable topic = Some t →
  notify_ptp_consumer topic w = (Return (), (notify_ptp_consumer topic w).2)
  ∧ down (notify_ptp_consumer topic w).2 = down w.
Proof.
  intros Ht.
  destruct (ptp_queues w !!! dict_key t) as [|[msg message_id] rest] eqn:Hq.
  { rewrite (notify_ptp_consumer_idle w topic t) by auto. done. }
  destruct (ptp_consumers w !!! dict_key t) as [|consumer others] eqn:Hc.
  { rewrite (notify_ptp_consumer_idle w topic t) by auto. done. }
  destruct (decide (consumer ∈ down w)) as [Hdown|Hup].
  - erewrite notify_ptp_consumer_failed by done. done.
  - erewrite notify_ptp_consumer_delivered by done. done.
Qed.

Lemma is_request_queue action topic fields :
  is_request action "queue" topic fields →
  str_eq (mode_of fields) "pubsub" = false ∧ str_eq (mode_of fields) "queue" = true.
Proof. by intros (_ & -> & _). Qed.

Section queue_requests.
Context (w : world) (fresh : string) (h : handle) (fields : list (string * json)).
Context (topic : json) (t : scalar).
Hypothesis topic_hashable : hashable topic = Some t.
Local Abbreviation k := (dict_key t).
Local Abbreviation msg := (payload_of fields).
Local Abbreviation mid := (message_id_of fresh fields).

(** A publish to a queue: append, one delivery step, save, acknowledge. *)
Lemma publish_queue_run :
  is_request "publish" "queue" topic fields →
  handle_client fresh h (Decoded (JObj fields)) w
  = let w1 := set_ptp_queues (λ q, <[k := q !!! k ++ [(msg, mid)]]> q) w in
    let w2 := (notify_ptp_consumer topic w1).2 in
    let w3 := set_disk (save_messages (py_str t) (ptp_queues w2 !!! k) "queue") w2 in
    if decide (h ∈ down w) then handle_client_finally h w3
    else set_wire (λ l, l ++ [(h, make_ack mid)]) w3.
Proof using topic_hashable.
  intros Hreq.
  destruct (is_request_publish _ _ _ Hreq) as [Hp _].
  destruct (is_request_queue _ _ _ Hreq) as [Hm1 Hm2].
  destruct Hreq as (_ & _ & Htopic).
  unfold handle_client, handle_client_body.
  fold (action_of fields) (mode_of fields) (topic_of fields) msg mid.
  rewrite Hp, Hm1, Hm2, Htopic. unfold index. rewrite topic_hashable.
  cbv [mbind M_bind mret M_ret modify gets save].
  destruct (notify_ptp_consumer_returns topic t
              (set_ptp_queues (λ q, <[k := q !!! k ++ [(msg, mid)]]> q) w)
              topic_hashable) as [Hrun Hdown].
  rewrite Hrun. cbv beta iota zeta.
  simpl in Hdown. rewrite <- Hdown.
  finish_reply.
Qed.

(** A subscribe to a queue: append the handle to the consumers, one
    delivery step, wait. *)
Lemma subscribe_queue_run :
  is_request "subscribe" "queue" topic fields →
  handle_client fresh h (Decoded (JObj fields)) w
  = set_conns <[h := Waiting Queue k]>
      (notify_ptp_consumer topic
         (set_ptp_consumers (λ S, <[k := S !!! k ++ [h]]> S) w)).2.
Proof using topic_hashable.
  intros Hreq.
  destruct (is_request_subscribe _ _ _ Hreq) as (Hp & Hs & _).
  destruct (is_request_queue _ _ _ Hreq) as [Hm1 Hm2].
  destruct Hreq as (_ & _ & Htopic).
  unfold handle_client, handle_client_body.
  fold (action_of fields) (mode_of fields) (topic_of fields).
  rewrite Hp, Hs, Hm1, Hm2, Htopic. unfold index. rewrite topic_hashable.
  cbv [mbind M_bind mret M_ret modify gets].
  destruct (notify_ptp_consumer_returns topic t
              (set_ptp_consumers (λ S, <[k := S !!! k ++ [h]]> S) w)
              topic_hashable) as [Hrun _].
  by rewrite Hrun.
Qed.

End queue_requests.

(** ** Registering a consumer on a queue that already holds messages *)

Section register_consumer.
Context (topic : json) (t : scalar).
Hypothesis topic_hashable : hashable topic = Some t.
Local Abbreviation k := (dict_key t).


End register_consumer.



(** ** Failed deliveries and the snapshot *)

Section failed_delivery.
Context (topic : json) (t : scalar).
Hypothesis topic_hashable : hashable topic = Some t.
Local Abbreviation k := (dict_key t).

End failed_delivery.



(** ** Calm passes: what a pass of the loop cannot do *)

Lemma inbox_app x w W :
  inbox x (set_wire (λ l, l ++ W) w) = inbox x w ++ (filter (λ e, e.1 = x) W).*2.
Proof. unfold inbox. simpl. by rewrite filter_app, fmap_app. Qed.

Lemma calm_refl h w : calm h w w.
Proof. by repeat split. Qed.

Lemma calm_trans h w1 w2 w3 : calm h w1 w2 → calm h w2 w3 → calm h w1 w3.
Proof.
  intros (Hc1 & Hd1 & Hs1 & Hp1 & Hi1) (Hc2 & Hd2 & Hs2 & Hp2 & Hi2).
  split; [congruence|]. split; [congruence|].
  split; [intros k; etrans; [apply Hs2 | apply Hs1]|].
  split; [intros k; etrans; [apply Hp2 | apply Hp1]|].
  intros x Hx Hun. rewrite Hi2, Hi1; try done.
  intros k. destruct (Hun k) as [Hxs Hxp]. split.
  - intros Hin. apply Hxs. eapply elem_of_sublist; [exact Hin | apply Hs1].
  - intros Hin. apply Hxp. eapply elem_of_sublist; [exact Hin | apply Hp1].
Qed.

Lemma filter_none {A} (P : A → Prop) `{!∀ x, Decision (P x)} (l : list A) :
  (∀ x, x ∈ l → ¬ P x) → filter P l = [].
Proof.
  induction l as [|a l IH]; intros Hl; [done|].
  rewrite filter_cons_False by (apply Hl, list_elem_of_here).
  apply IH. intros x Hx. apply Hl. by apply list_elem_of_further.
Qed.

(** Writing to the sender or to registered handles is calm. *)
Lemma calm_writes h w W :
  (∀ y r, (y, r) ∈ W →
          y = h ∨ ∃ k, y ∈ subscribers w !!! k ∨ y ∈ ptp_consumers w !!! k) →
  calm h w (set_wire (λ l, l ++ W) w).
Proof.
  intros HW. repeat split; try done.
  intros x Hx Hun. rewrite inbox_app.
  replace (filter (λ e, e.1 = x) W) with (@nil (handle * record)).
  { simpl. by rewrite app_nil_r. }
  symmetry. apply filter_none. intros [y r] Hin Hy. simpl in Hy. subst y.
  destruct (HW _ _ Hin) as [-> | (k & [Hk | Hk])]; [done | |].
  - by destruct (Hun k).
  - by destruct (Hun k).
Qed.

Lemma calm_write_self h r w : calm h w (set_wire (λ l, l ++ [(h, r)]) w).
Proof.
  apply calm_writes. intros y r' [= -> ->]%list_elem_of_singleton. by left.
Qed.

Lemma calm_set_queues h f w : calm h w (set_queues f w).
Proof. by repeat split. Qed.

Lemma calm_set_ptp_queues h f w : calm h w (set_ptp_queues f w).
Proof. by repeat split. Qed.

Lemma calm_set_disk h f w : calm h w (set_disk f w).
Proof. by repeat split. Qed.

(** Shrinking one subscriber list is calm. *)
Lemma calm_shrink_subscribers h w k l :
  l `sublist_of` subscribers w !!! k →
  calm h w (set_subscribers <[k := l]> w).
Proof.
  intros Hl. repeat split; try done. intros k'. simpl.
  destruct (decide (k = k')) as [<-|Hne].
  - by rewrite lookup_total_insert_eq.
  - by rewrite lookup_total_insert_ne.
Qed.

Lemma calm_shrink_consumers h w k l :
  l `sublist_of` ptp_consumers w !!! k →
  calm h w (set_ptp_consumers <[k := l]> w).
Proof.
  intros Hl. repeat split; try done. intros k'. simpl.
  destruct (decide (k = k')) as [<-|Hne].
  - by rewrite lookup_total_insert_eq.
  - by rewrite lookup_total_insert_ne.
Qed.

Lemma calm_notify_ptp_consumer h topic t w :
  hashable topic = Some t →
  calm h w (notify_ptp_consumer topic w).2.
Proof.
  intros Ht.
  destruct (ptp_queues w !!! dict_key t) as [|[msg message_id] rest] eqn:Hq.
  { rewrite (notify_ptp_consumer_idle w topic t) by auto. apply calm_refl. }
  destruct (ptp_consumers w !!! dict_key t) as [|consumer others] eqn:Hc.
  { rewrite (notify_ptp_consumer_idle w topic t) by auto. apply calm_refl. }
  destruct (decide (consumer ∈ down w)) as [Hdown|Hup].
  - erewrite notify_ptp_consumer_failed by done. simpl.
    eapply calm_trans; [apply calm_set_ptp_queues|].
    apply calm_shrink_consumers. simpl. rewrite Hc. by apply sublist_cons.
  - erewrite notify_ptp_consumer_delivered by done. simpl.
    eapply calm_trans; [apply calm_set_ptp_queues|].
    eapply calm_trans; [|apply calm_set_disk].
    apply calm_writes. intros y r [= -> ->]%list_elem_of_singleton.
    right. exists (dict_key t). right. simpl. rewrite Hc. apply list_elem_of_here.
Qed.

Lemma calm_fanning h w S' l topic message message_id k :
  l `sublist_of` subscribers w !!! k →
  S' !!! k = l →
  (∀ k', k' ≠ k → S' !!! k' = subscribers w !!! k') →
  calm h w (fanning w S' (wire w ++ deliveries topic message message_id l)).
Proof.
  intros Hl Hk Hother.
  replace (fanning w S' (wire w ++ deliveries topic message message_id l))
    with (set_subscribers (λ _, S')
            (set_wire (λ W, W ++ deliveries topic message message_id l) w))
    by reflexivity.
  eapply (calm_trans _ _ (set_wire (λ W, W ++ deliveries topic message message_id l) w)).
  - apply calm_writes. intros y r Hin. unfold deliveries in Hin.
    apply list_elem_of_fmap in Hin as (x & Heq & Hx). injection Heq as -> _.
    right. exists k. left. eapply elem_of_sublist; [exact Hx | exact Hl].
  - repeat split; try done. intros k'. simpl.
    destruct (decide (k' = k)) as [->|Hne].
    + by rewrite Hk.
    + by rewrite Hother.
Qed.

(** ** Every pass of the loop, by cases *)

Ltac eval_request fields :=
  unfold handle_client, handle_client_body;
  fold (action_of fields) (mode_of fields) (topic_of fields);
  repeat match goal with
         | H : str_eq _ _ = _ |- _ => rewrite H
         end;
  unfold index;
  repeat match goal with
         | H : hashable _ = _ |- _ => rewrite H
         end.

Lemma pass_shape_finally h w : pass_shape h w (handle_client_finally h w).
Proof. exists w. left. split; [apply calm_refl | by right]. Qed.

Lemma pass_shape_same h w : pass_shape h w w.
Proof. exists w. left. split; [apply calm_refl | by left]. Qed.

Lemma pass_shape_reply h r w :
  pass_shape h w (if decide (h ∈ down w) then handle_client_finally h w
                  else set_wire (λ l, l ++ [(h, r)]) w).
Proof.
  destruct (decide (h ∈ down w)).
  - apply pass_shape_finally.
  - eexists. left. split; [apply calm_write_self | by left].
Qed.

Lemma pass_shape_calm_reply h r w w2 :
  calm h w w2 →
  pass_shape h w (if decide (h ∈ down w) then handle_client_finally h w2
                  else set_wire (λ l, l ++ [(h, r)]) w2).
Proof.
  intros Hcalm. destruct (decide (h ∈ down w)).
  - eexists. left. split; [exact Hcalm | by right].
  - eexists. left. split; [|by left].
    eapply calm_trans; [exact Hcalm | apply calm_write_self].
Qed.

(** Every pass of the loop has this shape. *)
Lemma handle_client_shape fresh h data w :
  pass_shape h w (handle_client fresh h data w).
Proof.
  assert (handle_client fresh h data w = handle_client_finally h w →
          pass_shape h w (handle_client fresh h data w)) as Hfinally.
  { intros ->. apply pass_shape_finally. }
  assert (∀ r, handle_client fresh h data w
               = (if decide (h ∈ down w) then handle_client_finally h w
                  else set_wire (λ l, l ++ [(h, r)]) w) →
          pass_shape h w (handle_client fresh h data w)) as Hreply.
  { intros r ->. apply pass_shape_reply. }
  destruct data as [| |e|message].
  - by apply Hfinally.
  - by apply Hfinally.
  - eapply Hreply. unfold handle_client, handle_client_body. finish_reply.
  - destruct message as [| | | | |fields]; try by apply Hfinally.
    destruct (str_eq (action_of fields) "publish") eqn:Hp.
    { destruct (str_eq (mode_of fields) "pubsub") eqn:Hm1.
      { destruct (hashable (topic_of fields)) as [t|] eqn:Ht.
        - destruct (publish_pubsub_body w fresh h fields t Hp Hm1 Ht)
            as (S' & Hk & Hother & ->).
          cbv zeta. apply pass_shape_calm_reply.
          eapply calm_trans; [apply calm_set_queues|].
          eapply calm_trans; [|apply calm_set_disk].
          apply (calm_fanning h (set_queues _ w) S' _ _ _ _ (dict_key t)).
          + apply sublist_filter.
          + exact Hk.
          + exact Hother.
        - apply Hfinally. by eval_request fields. }
      destruct (str_eq (mode_of fields) "queue") eqn:Hm2.
      { destruct (hashable (topic_of fields)) as [t|] eqn:Ht.
        - rewrite (publish_queue_run w fresh h fields (topic_of fields) t Ht).
          2:{ apply str_eq_true in Hp, Hm2. by repeat split. }
          cbv zeta. apply pass_shape_calm_reply.
          eapply calm_trans; [apply calm_set_ptp_queues|].
          eapply calm_trans; [|apply calm_set_disk].
          by eapply calm_notify_ptp_consumer.
        - apply Hfinally. by eval_request fields. }
      eapply Hreply. eval_request fields. unfold_M. finish_reply. }
    destruct (str_eq (action_of fields) "subscribe") eqn:Hs.
    { destruct (str_eq (mode_of fields) "pubsub") eqn:Hm1.
      { destruct (hashable (topic_of fields)) as [t|] eqn:Ht.
        - rewrite (subscribe_pubsub_run w fresh h fields (topic_of fields) t).
          2:{ apply str_eq_true in Hs, Hm1. by repeat split. }
          2:{ exact Ht. }
          eexists. right. left. exists (dict_key t). split; [|reflexivity].
          cbv zeta. destruct (decide (h ∈ down w)); [apply calm_refl|].
          apply calm_writes. intros y r Hin. unfold replayed in Hin.
          apply list_elem_of_fmap in Hin as (x & Heq & _). injection Heq as -> _.
          by left.
        - apply Hfinally. by eval_request fields. }
      destruct (str_eq (mode_of fields) "queue") eqn:Hm2.
      { destruct (hashable (topic_of fields)) as [t|] eqn:Ht.
        - rewrite (subscribe_queue_run w fresh h fields (topic_of fields) t Ht).
          2:{ apply str_eq_true in Hs, Hm2. by repeat split. }
          eexists. right. right. exists (dict_key t). split; [|reflexivity].
          by eapply calm_notify_ptp_consumer.
        - apply Hfinally. by eval_request fields. }
      replace (handle_client fresh h (Decoded (JObj fields)) w) with w
        by (by eval_request fields).
      apply pass_shape_same. }
    destruct (str_eq (action_of fields) "ack") eqn:Ha.
    { replace (handle_client fresh h (Decoded (JObj fields)) w) with w
        by (by eval_request fields).
      apply pass_shape_same. }
    eapply Hreply. eval_request fields. finish_reply.
Qed.

(** ** The registration invariant *)

Lemma registered_not_reading w h :
  registered_while_waiting w → conns w !! h = Some Reading → unregistered h w.
Proof.
  intros (Hs & Hp & _) Hr k. split; intros Hin.
  - apply Hs in Hin. congruence.
  - apply Hp in Hin. congruence.
Qed.


Lemma calm_preserves h w w' :
  registered_while_waiting w → calm h w w' → registered_while_waiting w'.
Proof.
  intros (Hs & Hp & Hns & Hnp) (Hc & _ & Hss & Hsp & _).
  split; [|split; [|split]].
  - intros x k Hin. rewrite Hc. apply Hs. eapply elem_of_sublist; [exact Hin | apply Hss].
  - intros x k Hin. rewrite Hc. apply Hp. eapply elem_of_sublist; [exact Hin | apply Hsp].
  - intros k. eapply sublist_NoDup; [apply Hns | apply Hss].
  - intros k. eapply sublist_NoDup; [apply Hnp | apply Hsp].
Qed.

Lemma finally_preserves h w :
  registered_while_waiting w → registered_while_waiting (handle_client_finally h w).
Proof.
  intros (Hs & Hp & Hns & Hnp).
  split; [|split; [|split]].
  - intros x k. rewrite finally_subscribers. intros Hin.
    assert (x ≠ h) as Hne.
    { intros ->. by apply (discard_NoDup h (subscribers w !!! k)). }
    simpl. rewrite lookup_insert_ne by done. apply Hs.
    eapply elem_of_sublist; [exact Hin | apply discard_sublist].
  - intros x k. rewrite finally_ptp_consumers. intros Hin.
    assert (x ≠ h) as Hne.
    { intros ->. by apply (discard_NoDup h (ptp_consumers w !!! k)). }
    simpl. rewrite lookup_insert_ne by done. apply Hp.
    eapply elem_of_sublist; [exact Hin | apply discard_sublist].
  - intros k. rewrite finally_subscribers.
    eapply sublist_NoDup; [apply Hns | apply discard_sublist].
  - intros k. rewrite finally_ptp_consumers.
    eapply sublist_NoDup; [apply Hnp | apply discard_sublist].
Qed.

(** After the [finally] block the handle is in no list. *)
Lemma finally_unregisters h w :
  registered_while_waiting w → unregistered h (handle_client_finally h w).
Proof.
  intros (_ & _ & Hns & Hnp) k.
  rewrite finally_subscribers, finally_ptp_consumers.
  split; by apply discard_NoDup.
Qed.

Lemma lookup_total_append (S : gmap key (list handle)) k k' h :
  <[k := S !!! k ++ [h]]> S !!! k' = if decide (k = k') then S !!! k' ++ [h] else S !!! k'.
Proof.
  destruct (decide (k = k')) as [<-|Hne].
  - by rewrite lookup_total_insert_eq.
  - by rewrite lookup_total_insert_ne.
Qed.

Lemma subscribe_preserves h k w w' :
  registered_while_waiting w →
  conns w !! h = Some Reading →
  calm h (set_subscribers (λ S, <[k := S !!! k ++ [h]]> S) w) w' →
  registered_while_waiting (set_conns <[h := Waiting Pubsub k]> w').
Proof.
  intros Hinv Hr (Hc & _ & Hss & Hsp & _).
  pose proof (registered_not_reading w h Hinv Hr) as Hun.
  destruct Hinv as (Hs & Hp & Hns & Hnp). simpl in Hc, Hss, Hsp.
  split; [|split; [|split]].
  - intros x k' Hin. simpl. rewrite Hc.
    apply (elem_of_sublist _ _ _ Hin) in Hss. rewrite lookup_total_append in Hss.
    destruct (decide (x = h)) as [->|Hne].
    + rewrite lookup_insert_eq. destruct (decide (k = k')) as [->|Hk]; [done|].
      by destruct (Hun k').
    + rewrite lookup_insert_ne by done. apply Hs.
      destruct (decide (k = k')); [|done].
      apply elem_of_app in Hss as [?|?%list_elem_of_singleton]; done.
  - intros x k' Hin. simpl. rewrite Hc.
    apply (elem_of_sublist _ _ _ Hin) in Hsp.
    destruct (decide (x = h)) as [->|Hne]; [by destruct (Hun k')|].
    rewrite lookup_insert_ne by done. by apply Hp.
  - intros k'. simpl. eapply sublist_NoDup; [|apply Hss].
    rewrite lookup_total_append. destruct (decide (k = k')) as [->|Hk]; [|apply Hns].
    apply NoDup_app. split; [apply Hns|]. split; [|apply NoDup_singleton].
    intros x Hx ->%list_elem_of_singleton. by destruct (Hun k').
  - intros k'. simpl. eapply sublist_NoDup; [apply Hnp | apply Hsp].
Qed.

Lemma consume_preserves h k w w' :
  registered_while_waiting w →
  conns w !! h = Some Reading →
  calm h (set_ptp_consumers (λ S, <[k := S !!! k ++ [h]]> S) w) w' →
  registered_while_waiting (set_conns <[h := Waiting Queue k]> w').
Proof.
  intros Hinv Hr (Hc & _ & Hss & Hsp & _).
  pose proof (registered_not_reading w h Hinv Hr) as Hun.
  destruct Hinv as (Hs & Hp & Hns & Hnp). simpl in Hc, Hss, Hsp.
  split; [|split; [|split]].
  - intros x k' Hin. simpl. rewrite Hc.
    apply (elem_of_sublist _ _ _ Hin) in Hss.
    destruct (decide (x = h)) as [->|Hne]; [by destruct (Hun k')|].
    rewrite lookup_insert_ne by done. by apply Hs.
  - intros x k' Hin. simpl. rewrite Hc.
    apply (elem_of_sublist _ _ _ Hin) in Hsp. rewrite lookup_total_append in Hsp.
    destruct (decide (x = h)) as [->|Hne].
    + rewrite lookup_insert_eq. destruct (decide (k = k')) as [->|Hk]; [done|].
      by destruct (Hun k').
    + rewrite lookup_insert_ne by done. apply Hp.
      destruct (decide (k = k')); [|done].
      apply elem_of_app in Hsp as [?|?%list_elem_of_singleton]; done.
  - intros k'. simpl. eapply sublist_NoDup; [apply Hns | apply Hss].
  - intros k'. simpl. eapply sublist_NoDup; [|apply Hsp].
    rewrite lookup_total_append. destruct (decide (k = k')) as [->|Hk]; [|apply Hnp].
    apply NoDup_app. split; [apply Hnp|]. split; [|apply NoDup_singleton].
    intros x Hx ->%list_elem_of_singleton. by destruct (Hun k').
Qed.

Lemma handle_client_preserves fresh h data w :
  registered_while_waiting w →
  conns w !! h = Some Reading →
  registered_while_waiting (handle_client fresh h data w).
Proof.
  intros Hinv Hr.
  destruct (handle_client_shape fresh h data w)
    as (w' & [(Hcalm & [-> | ->]) | [(k & Hcalm & ->) | (k & Hcalm & ->)]]).
  - by eapply calm_preserves.
  - apply finally_preserves. by eapply calm_preserves.
  - by eapply subscribe_preserves.
  - by eapply consume_preserves.
Qed.

Lemma step_preserves e w w' :
  registered_while_waiting w → step e w = Some w' → registered_while_waiting w'.
Proof.
  intros Hinv Hstep. destruct e as [h|fresh h data|h|h|h]; simpl in Hstep.
  - destruct (conns w !! h) eqn:Hh; [done|]. injection Hstep as <-.
    destruct Hinv as (Hs & Hp & Hns & Hnp).
    split; [|split; [|split]]; try done.
    + intros x k Hin. simpl. specialize (Hs x k Hin).
      rewrite lookup_insert_ne by congruence. done.
    + intros x k Hin. simpl. specialize (Hp x k Hin).
      rewrite lookup_insert_ne by congruence. done.
  - destruct (conns w !! h) as [[| |]|] eqn:Hh; try done. injection Hstep as <-.
    by apply handle_client_preserves.
  - destruct (conns w !! h) as [[|m k|]|] eqn:Hh; try done. injection Hstep as <-.
    case_bool_decide as Hin; [done|].
    destruct Hinv as (Hs & Hp & Hns & Hnp).
    split; [|split; [|split]]; try done.
    + intros x k' Hx. simpl. specialize (Hs x k' Hx).
      rewrite lookup_insert_ne; [done|]. intros <-. rewrite Hh in Hs.
      injection Hs as -> ->. done.
    + intros x k' Hx. simpl. specialize (Hp x k' Hx).
      rewrite lookup_insert_ne; [done|]. intros <-. rewrite Hh in Hp.
      injection Hp as -> ->. done.
  - destruct (conns w !! h) as [[| |]|] eqn:Hh; try done;
      injection Hstep as <-; by apply finally_preserves.
  - injection Hstep as <-. done.
Qed.

Lemma run_preserves es :
  ∀ w w', registered_while_waiting w → run es w = Some w' → registered_while_waiting w'.
Proof.
  induction es as [|e es IH]; intros w w' Hinv Hrun; simpl in Hrun.
  - by injection Hrun as <-.
  - destruct (step e w) as [w1|] eqn:Hstep; [|done].
    eapply IH; [|exact Hrun]. by eapply step_preserves.
Qed.

Lemma boot_registered q pq d : registered_while_waiting (boot q pq d).
Proof.
  split; [|split; [|split]]; simpl.
  - intros h k. rewrite lookup_total_empty. by intros ?%elem_of_nil.
  - intros h k. rewrite lookup_total_empty. by intros ?%elem_of_nil.
  - intros k. rewrite lookup_total_empty. apply NoDup_nil_2.
  - intros k. rewrite lookup_total_empty. apply NoDup_nil_2.
Qed.

Lemma reachable_registered w : reachable w → registered_while_waiting w.
Proof.
  intros (q & pq & d & es & Hrun).
  eapply run_preserves; [apply boot_registered | exact Hrun].
Qed.

(** ** Closed connections *)






(** * Further properties *)

(** ** Snapshot files *)

Lemma list_ascii_of_string_app s1 s2 :
  String.list_ascii_of_string (s1 +:+ s2)
  = String.list_ascii_of_string s1 ++ String.list_ascii_of_string s2.
Proof. induction s1 as [|c s1 IH]; simpl; [done | by rewrite IH]. Qed.

Lemma string_app_inj_r s1 s2 r : s1 +:+ r = s2 +:+ r → s1 = s2.
Proof.
  intros Heq. apply (f_equal String.list_ascii_of_string) in Heq.
  rewrite !list_ascii_of_string_app in Heq. apply app_inv_tail in Heq.
  apply (f_equal String.string_of_list_ascii) in Heq.
  by rewrite !String.string_of_list_ascii_of_string in Heq.
Qed.

(** The two modes of the broker never share a file, and within a mode two
    names never do. *)
Lemma topic_file_inj t m t' m' :
  m = "pubsub" ∨ m = "queue" →
  m' = "pubsub" ∨ m' = "queue" →
  topic_file t m = topic_file t' m' →
  t = t' ∧ m = m'.
Proof.
  unfold topic_file. intros [-> | ->] [-> | ->] Heq; simpl in Heq; try discriminate.
  - injection Heq as Heq. split; [|done]. by eapply string_app_inj_r.
  - injection Heq as Heq. split; [|done]. by eapply string_app_inj_r.
Qed.

(** X1: after [delete_messages], [load_messages] returns the empty list,
    whatever the directory held; deleting a snapshot that does not exist
    changes nothing; and no other file is touched. *)
Theorem delete_then_load_is_empty topic mode (d : gmap string json) :
  load_messages topic mode (delete_messages topic mode d) = JArr []
  ∧ (d !! topic_file topic mode = None → delete_messages topic mode d = d)
  ∧ ∀ name, name ≠ topic_file topic mode →
            delete_messages topic mode d !! name = d !! name.
Proof.
  unfold load_messages, delete_messages. split; [|split].
  - case_bool_decide as Hex.
    + by rewrite lookup_delete_eq.
    + destruct (d !! topic_file topic mode) eqn:Hd; [|done].
      exfalso. apply Hex. by eexists.
  - intros Hnone. rewrite bool_decide_eq_false_2; [done|].
    rewrite Hnone. by intros [? ?].
  - intros name Hne. case_bool_decide; [|done]. by rewrite lookup_delete_ne.
Qed.


(** X3: for the two modes of the broker, saving or deleting the snapshot of
    one (topic, mode) leaves what is loaded for every other (topic, mode) as
    it was. *)
Theorem snapshots_do_not_interfere t m t' m' (X : messages) (d : gmap string json) :
  m = "pubsub" ∨ m = "queue" →
  m' = "pubsub" ∨ m' = "queue" →
  (t, m) ≠ (t', m') →
  load_messages t' m' (save_messages t X m d) = load_messages t' m' d
  ∧ load_messages t' m' (delete_messages t m d) = load_messages t' m' d.
Proof.
  intros Hm Hm' Hne.
  assert (topic_file t' m' ≠ topic_file t m) as Hfiles.
  { intros Heq. apply topic_file_inj in Heq as [-> ->]; done. }
  split.
  - by apply load_save_other.
  - unfold load_messages, delete_messages. case_bool_decide; [|done].
    by rewrite lookup_delete_ne.
Qed.

Lemma snapshots_do_not_interfere_witness :
  let d := save_messages "orders" [(JStr "a", JStr "id1")] "queue" ∅ in
  as_pairs (load_messages "orders" "queue"
              (save_messages "orders" [(JStr "b", JStr "id2")] "pubsub" d))
  = Some [(JStr "a", JStr "id1")].
Proof.
  intros d.
  destruct (snapshots_do_not_interfere "orders" "pubsub" "orders" "queue"
              [(JStr "b", JStr "id2")] d) as [Hsave _].
  - by left.
  - by right.
  - discriminate.
  - rewrite Hsave. by vm_compute.
Defined.

(** ** Requests that end the connection, and requests that are ignored *)

(** X4: a request that decodes to something other than a JSON object (a
    list, a string, a number, null) raises in [message.get]: the pass ends in
    the [finally] block, so the connection is closed without any reply, and
    no queue, backlog or snapshot is touched. *)
Theorem non_object_request_closes_connection fresh (h : handle) message (w : world) :
  (∀ fields, message ≠ JObj fields) →
  let w' := handle_client fresh h (Decoded message) w in
  w' = handle_client_finally h w
  ∧ wire w' = wire w
  ∧ conns w' !! h = Some Closed
  ∧ queues w' = queues w
  ∧ ptp_queues w' = ptp_queues w
  ∧ disk w' = disk w.
Proof.
  intros Hobj w'.
  assert (w' = handle_client_finally h w) as ->.
  { unfold w'. destruct message; try reflexivity. by destruct (Hobj fields). }
  simpl. by rewrite lookup_insert_eq.
Qed.

Lemma non_object_request_closes_connection_witness :
  let w := set_conns <[3 := Reading]> (boot ∅ ∅ ∅) in
  let w' := handle_client "id-0" 3 (Decoded (JArr [JStr "publish"])) w in
  wire w' = [] ∧ conns w' !! 3 = Some Closed.
Proof.
  intros w w'.
  destruct (non_object_request_closes_connection "id-0" 3 (JArr [JStr "publish"]) w)
    as (_ & Hwire & Hconns & _).
  - discriminate.
  - done.
Defined.

(** X5: a publish or subscribe request in one of the two modes whose topic
    cannot be hashed (a list or an object) raises when the registry is
    indexed, before anything is changed: the connection is closed without
    acknowledgment or error record, and nothing is enqueued, registered or
    saved. *)
Theorem unhashable_topic_closes_connection fresh (h : handle) fields (w : world) :
  action_of fields = JStr "publish" ∨ action_of fields = JStr "subscribe" →
  mode_of fields = JStr "pubsub" ∨ mode_of fields = JStr "queue" →
  hashable (topic_of fields) = None →
  let w' := handle_client fresh h (Decoded (JObj fields)) w in
  w' = handle_client_finally h w
  ∧ wire w' = wire w
  ∧ conns w' !! h = Some Closed
  ∧ queues w' = queues w
  ∧ ptp_queues w' = ptp_queues w
  ∧ disk w' = disk w.
Proof.
  intros Ha Hm Ht w'.
  assert (w' = handle_client_finally h w) as ->.
  { unfold w', handle_client, handle_client_body.
    fold (action_of fields) (mode_of fields) (topic_of fields).
    destruct Ha as [-> | ->], Hm as [-> | ->]; simpl; unfold index; by rewrite Ht. }
  simpl. by rewrite lookup_insert_eq.
Qed.

Lemma unhashable_topic_closes_connection_witness :
  let w := set_conns <[3 := Reading]> (boot ∅ ∅ ∅) in
  let w' := handle_client "id-0" 3
              (Decoded (JObj [("action", JStr "publish"); ("topic", JArr [JStr "t1"]);
                              ("message", JStr "hello")])) w in
  wire w' = [] ∧ queues w' = ∅ ∧ disk w' = ∅ ∧ conns w' !! 3 = Some Closed.
Proof.
  intros w w'.
  destruct (unhashable_topic_closes_connection "id-0" 3
              [("action", JStr "publish"); ("topic", JArr [JStr "t1"]);
               ("message", JStr "hello")] w)
    as (_ & Hwire & Hconns & Hq & _ & Hd).
  - by left.
  - by left.
  - reflexivity.
  - done.
Defined.

(** X6: an ack request, and a subscribe request whose mode is neither
    "pubsub" nor "queue", change nothing at all: no reply is written, not
    even an error record, nothing is registered, and the connection goes on
    reading (the subscriber is not made to wait). *)
Theorem ignored_requests_change_nothing fresh (h : handle) fields (w : world) :
  action_of fields = JStr "ack"
  ∨ (action_of fields = JStr "subscribe"
     ∧ str_eq (mode_of fields) "pubsub" = false
     ∧ str_eq (mode_of fields) "queue" = false) →
  handle_client fresh h (Decoded (JObj fields)) w = w.
Proof.
  intros [Ha | (Ha & Hm1 & Hm2)]; unfold handle_client, handle_client_body;
    fold (action_of fields) (mode_of fields) (topic_of fields); rewrite Ha; simpl.
  - done.
  - by rewrite Hm1, Hm2.
Qed.

Lemma ignored_requests_change_nothing_witness :
  let w := set_conns <[3 := Reading]> (boot ∅ ∅ ∅) in
  handle_client "id-0" 3
    (Decoded (JObj [("action", JStr "subscribe"); ("topic", JStr "t1");
                    ("mode", JStr "fanout")])) w = w.
Proof.
  intros w. apply ignored_requests_change_nothing.
  right. by repeat split.
Defined.

(** ** Publishing: hand-over order, write-through, lost publishers *)

Section publish_queue_order.
Context (topic : json) (t : scalar).
Hypothesis topic_hashable : hashable topic = Some t.
Local Abbreviation k := (dict_key t).


End publish_queue_order.



Section lost_streams.
Context (topic : json) (t : scalar).
Hypothesis topic_hashable : hashable topic = Some t.
Local Abbreviation k := (dict_key t).

Lemma publish_pubsub_conns (w : world) fresh (p : handle) fields :
  is_request "publish" "pubsub" topic fields →
  conns (handle_client fresh p (Decoded (JObj fields)) w)
  = if decide (p ∈ down w) then <[p := Closed]> (conns w) else conns w.
Proof using topic_hashable.
  intros Hreq. destruct (is_request_publish _ _ _ Hreq) as [Hp Hm].
  destruct Hreq as (_ & _ & Htopic).
  destruct (publish_pubsub_body w fresh p fields t Hp Hm) as (S' & _ & _ & ->).
  { by rewrite Htopic. }
  cbv zeta. by destruct (decide (p ∈ down w)).
Qed.


(** X10: a subscriber whose stream is already lost when it subscribes is
    registered all the same, without any replay; the next publish to the
    topic fails to write to it and removes it from the list, after which its
    coroutine leaves the wait loop and goes back to reading. *)
Theorem dead_subscriber_dropped_by_next_publish
    (w : world) fresh_s (s : handle) fields_s fresh_p (p : handle) fields_p :
  is_request "subscribe" "pubsub" topic fields_s →
  is_request "publish" "pubsub" topic fields_p →
  s ∈ down w →
  p ≠ s →
  let w1 := handle_client fresh_s s (Decoded (JObj fields_s)) w in
  let w2 := handle_client fresh_p p (Decoded (JObj fields_p)) w1 in
  wire w1 = wire w
  ∧ subscribers w1 !!! k = subscribers w !!! k ++ [s]
  ∧ conns w1 !! s = Some (Waiting Pubsub k)
  ∧ (s ∉ subscribers w2 !!! k)
  ∧ step (Poll s) w2 = Some (set_conns <[s := Reading]> w2).
Proof using topic_hashable.
  intros Hsub Hpub Hdown Hne w1 w2.
  assert (w1 = set_conns <[s := Waiting Pubsub k]>
                 (set_subscribers (λ S, <[k := S !!! k ++ [s]]> S) w)) as Hw1.
  { unfold w1. rewrite (subscribe_pubsub_run w fresh_s s fields_s topic t) by done.
    cbv zeta. by rewrite decide_True by done. }
  assert (down w1 = down w) as Hd1 by (by rewrite Hw1).
  assert (conns w1 !! s = Some (Waiting Pubsub k)) as Hc1.
  { rewrite Hw1. simpl. apply lookup_insert_eq. }
  assert (s ∉ subscribers w2 !!! k) as Hout.
  { destruct (is_request_publish _ _ _ Hpub) as [Hp Hm].
    destruct Hpub as (_ & _ & Htopic).
    destruct (publish_pubsub_effects w1 fresh_p p fields_p t Hp Hm) as (_ & _ & Hs & _).
    { by rewrite Htopic. }
    fold w2 in Hs. rewrite Hs. intros Hin.
    assert (s ∈ live w1 (subscribers w1 !!! k)) as Hlive.
    { destruct (decide (p ∈ down w1)); [|done].
      eapply elem_of_sublist; [exact Hin | apply discard_sublist]. }
    unfold live in Hlive. apply list_elem_of_filter in Hlive as [Hup _].
    apply Hup. by rewrite Hd1. }
  split; [by rewrite Hw1|]. split.
  { rewrite Hw1. simpl. by rewrite lookup_total_insert_eq. }
  split; [exact Hc1|]. split; [exact Hout|].
  simpl. unfold w2 at 1. rewrite (publish_pubsub_conns w1 fresh_p p fields_p Hpub).
  assert ((if decide (p ∈ down w1) then <[p := Closed]> (conns w1) else conns w1) !! s
          = Some (Waiting Pubsub k)) as ->.
  { destruct (decide (p ∈ down w1)); [by rewrite lookup_insert_ne|done]. }
  simpl. by rewrite bool_decide_eq_false_2.
Qed.
End lost_streams.


Lemma dead_subscriber_dropped_by_next_publish_witness :
  let w := World ∅ ∅ ∅ ∅ ∅ [] {[2]} (<[1 := Reading]> (<[2 := Reading]> ∅)) in
  let w1 := handle_client "id1" 2
              (Decoded (JObj [("action", JStr "subscribe"); ("topic", JStr "t1")])) w in
  let w2 := handle_client "id2" 1
              (Decoded (JObj [("action", JStr "publish"); ("topic", JStr "t1");
                              ("message", JStr "hello")])) w1 in
  subscribers w1 !!! KStr "t1" = [2]
  ∧ (2 ∉ subscribers w2 !!! KStr "t1")
  ∧ step (Poll 2) w2 = Some (set_conns <[2 := Reading]> w2).
Proof.
  intros w w1 w2.
  destruct (dead_subscriber_dropped_by_next_publish (JStr "t1") (SStr "t1") eq_refl w
              "id1" 2 [("action", JStr "subscribe"); ("topic", JStr "t1")]
              "id2" 1 [("action", JStr "publish"); ("topic", JStr "t1");
                       ("message", JStr "hello")])
    as (_ & Hs1 & _ & Hout & Hpoll).
  - repeat constructor.
  - repeat constructor.
  - by vm_compute.
  - discriminate.
  - fold w1 in Hs1, Hout, Hpoll. fold w2 in Hout, Hpoll.
    split; [|split; [exact Hout | exact Hpoll]].
    etrans; [exact Hs1|]. by vm_compute.
Defined.

(** ** The backlog is never drained *)

Lemma notify_ptp_consumer_queues topic t w :
  hashable topic = Some t →
  queues (notify_ptp_consumer topic w).2 = queues w.
Proof.
  intros Ht.
  destruct (ptp_queues w !!! dict_key t) as [|[msg message_id] rest] eqn:Hq.
  { by rewrite (notify_ptp_consumer_idle w topic t) by auto. }
  destruct (ptp_consumers w !!! dict_key t) as [|consumer others] eqn:Hc.
  { by rewrite (notify_ptp_consumer_idle w topic t) by auto. }
  destruct (decide (consumer ∈ down w)) as [Hdown|Hup].
  - by erewrite notify_ptp_consumer_failed by done.
  - by erewrite notify_ptp_consumer_delivered by done.
Qed.

(** A pass of the loop leaves the backlogs alone or appends one entry to
    one of them. *)
Lemma handle_client_backlog fresh h data w :
  queues (handle_client fresh h data w) = queues w
  ∨ ∃ k entry,
      queues (handle_client fresh h data w) = <[k := queues w !!! k ++ [entry]]> (queues w).
Proof.
  assert (∀ r w2, queues w2 = queues w →
            queues (if decide (h ∈ down w) then handle_client_finally h w2
                    else set_wire (λ l, l ++ [(h, r)]) w2) = queues w) as Hreply.
  { intros r w2 Hw2. by destruct (decide (h ∈ down w)). }
  destruct data as [| |e|message]; try by left.
  - left. unfold handle_client, handle_client_body.
    etrans; [|apply (Hreply (make_error (ProtocolErrorText e) JNull) w eq_refl)].
    f_equal. finish_reply.
  - destruct message as [| | | | |fields]; try by left.
    destruct (str_eq (action_of fields) "publish") eqn:Hp.
    { destruct (str_eq (mode_of fields) "pubsub") eqn:Hm1.
      { destruct (hashable (topic_of fields)) as [t|] eqn:Ht.
        - destruct (publish_pubsub_body w fresh h fields t Hp Hm1 Ht)
            as (S' & _ & _ & ->).
          right. exists (dict_key t), (payload_of fields, message_id_of fresh fields).
          cbv zeta. by destruct (decide (h ∈ down w)).
        - left. by eval_request fields. }
      destruct (str_eq (mode_of fields) "queue") eqn:Hm2.
      { destruct (hashable (topic_of fields)) as [t|] eqn:Ht.
        - rewrite (publish_queue_run w fresh h fields (topic_of fields) t Ht).
          2:{ apply str_eq_true in Hp, Hm2. by repeat split. }
          left. cbv zeta. apply Hreply. simpl.
          by rewrite (notify_ptp_consumer_queues _ t).
        - left. by eval_request fields. }
      left. etrans; [|apply (Hreply (make_ack (message_id_of fresh fields)) w eq_refl)].
      f_equal. eval_request fields. unfold_M. finish_reply. }
    destruct (str_eq (action_of fields) "subscribe") eqn:Hs.
    { destruct (str_eq (mode_of fields) "pubsub") eqn:Hm1.
      { destruct (hashable (topic_of fields)) as [t|] eqn:Ht.
        - rewrite (subscribe_pubsub_run w fresh h fields (topic_of fields) t).
          2:{ apply str_eq_true in Hs, Hm1. by repeat split. }
          2:{ exact Ht. }
          left. cbv zeta. by destruct (decide (h ∈ down w)).
        - left. by eval_request fields. }
      destruct (str_eq (mode_of fields) "queue") eqn:Hm2.
      { destruct (hashable (topic_of fields)) as [t|] eqn:Ht.
        - rewrite (subscribe_queue_run w fresh h fields (topic_of fields) t Ht).
          2:{ apply str_eq_true in Hs, Hm2. by repeat split. }
          left. simpl. by rewrite (notify_ptp_consumer_queues _ t).
        - left. by eval_request fields. }
      left. by eval_request fields. }
    destruct (str_eq (action_of fields) "ack") eqn:Ha.
    { left. by eval_request fields. }
    left.
    etrans; [|apply (Hreply (make_error (UnknownAction (action_of fields))
                               (message_id_of fresh fields)) w eq_refl)].
    f_equal. eval_request fields. finish_reply.
Qed.

Lemma step_backlog e w w' k :
  step e w = Some w' → queues w !!! k `prefix_of` queues w' !!! k.
Proof.
  intros Hstep. destruct e as [h|fresh h data|h|h|h]; simpl in Hstep.
  - destruct (conns w !! h); [done|]. by injection Hstep as <-.
  - destruct (conns w !! h) as [[| |]|]; try done. injection Hstep as <-.
    destruct (handle_client_backlog fresh h data w) as [-> | (k' & entry & ->)]; [done|].
    destruct (decide (k' = k)) as [->|Hne].
    + rewrite lookup_total_insert_eq. by eexists.
    + by rewrite lookup_total_insert_ne.
  - destruct (conns w !! h) as [[| |]|]; try done. injection Hstep as <-.
    by case_bool_decide.
  - destruct (conns w !! h) as [[| |]|]; try done; by injection Hstep as <-.
  - by injection Hstep as <-.
Qed.

(** X11: nothing the broker does ever removes or reorders an entry of a
    pub/sub backlog: along every run, the backlog of each topic only grows
    at its end (so a subscriber that registers later is replayed everything
    that was ever published to the topic). *)
Theorem backlog_only_grows es :
  ∀ w w' k, run es w = Some w' → queues w !!! k `prefix_of` queues w' !!! k.
Proof.
  induction es as [|e es IH]; intros w w' k Hrun; simpl in Hrun.
  - by injection Hrun as <-.
  - destruct (step e w) as [w1|] eqn:Hstep; [|done].
    etrans; [by eapply step_backlog | by eapply IH].
Qed.

Lemma backlog_only_grows_witness :
  let publish (m : string) := Decoded (JObj [("action", JStr "publish"); ("topic", JStr "t1");
                                             ("message", JStr m)]) in
  let subscribe := Decoded (JObj [("action", JStr "subscribe"); ("topic", JStr "t1")]) in
  let w := boot {[KStr "t1" := [(JStr "kept", JStr "id0")]]} ∅ ∅ in
  ∃ w', run [Accept 1; Accept 2; Recv "id1" 2 subscribe; Recv "id2" 1 (publish "a");
             Drop 2; Recv "id3" 1 (publish "b")] w = Some w'
        ∧ [(JStr "kept", JStr "id0")] `prefix_of` queues w' !!! KStr "t1".
Proof.
  intros publish subscribe w.
  assert (∃ w', run [Accept 1; Accept 2; Recv "id1" 2 subscribe; Recv "id2" 1 (publish "a");
                     Drop 2; Recv "id3" 1 (publish "b")] w = Some w') as [w' Hrun]
    by (eexists; by vm_compute).
  exists w'. split; [exact Hrun|].
  exact (backlog_only_grows _ w w' (KStr "t1") Hrun).
Defined.

(** ** Registrations *)

(** X12: in every state the broker can reach, no handle is registered
    twice: every subscriber list and every consumer list is free of
    duplicates, and a handle that is in one list is in no other list, of
    either kind (a connection waits right after it registers and handles no
    further request until it has been removed). *)
Theorem registrations_are_unique (w : world) :
  reachable w →
  (∀ k, NoDup (subscribers w !!! k) ∧ NoDup (ptp_consumers w !!! k))
  ∧ (∀ h k k', h ∈ subscribers w !!! k → h ∈ subscribers w !!! k' → k = k')
  ∧ (∀ h k k', h ∈ ptp_consumers w !!! k → h ∈ ptp_consumers w !!! k' → k = k')
  ∧ (∀ h k k', h ∈ subscribers w !!! k → h ∉ ptp_consumers w !!! k').
Proof.
  intros (Hs & Hp & Hns & Hnp)%reachable_registered.
  split; [by intros k|]. split; [|split].
  - intros h k k' H1%Hs H2%Hs. congruence.
  - intros h k k' H1%Hp H2%Hp. congruence.
  - intros h k k' H1%Hs H2%Hp. congruence.
Qed.

Lemma registrations_are_unique_witness :
  let subscribe (m : string) := Decoded (JObj [("action", JStr "subscribe");
                                               ("topic", JStr "t1"); ("mode", JStr m)]) in
  ∃ w, run [Accept 1; Accept 2; Recv "id1" 1 (subscribe "pubsub");
            Recv "id2" 2 (subscribe "queue")] (boot ∅ ∅ ∅) = Some w
       ∧ NoDup (subscribers w !!! KStr "t1")
       ∧ (1 ∉ ptp_consumers w !!! KStr "t1").
Proof.
  intros subscribe.
  assert (∃ w, run [Accept 1; Accept 2; Recv "id1" 1 (subscribe "pubsub");
                    Recv "id2" 2 (subscribe "queue")] (boot ∅ ∅ ∅) = Some w) as [w Hrun]
    by (eexists; by vm_compute).
  assert (reachable w) as Hreach by (by eexists _, _, _, _).
  destruct (registrations_are_unique w Hreach) as (Hnd & _ & _ & Hdisj).
  exists w. split; [exact Hrun|]. split; [apply (Hnd (KStr "t1"))|].
  apply (Hdisj 1 (KStr "t1")).
  vm_compute in Hrun. injection Hrun as <-. vm_compute. apply list_elem_of_here.
Defined.

(** X13: when the request loop of a connection ends on end of stream or on
    a read error, the [finally] block finds the handle in no list: in every
    reachable state, nothing changes but the state of that connection. (The
    block removes something only when the task is cancelled while it
    waits.) *)
Theorem end_of_stream_changes_only_the_connection
    (w : world) fresh (h : handle) data :
  reachable w →
  conns w !! h = Some Reading →
  data = EOF ∨ data = ReadError →
  let w' := handle_client fresh h data w in
  (∀ k, subscribers w' !!! k = subscribers w !!! k
        ∧ ptp_consumers w' !!! k = ptp_consumers w !!! k)
  ∧ wire w' = wire w
  ∧ queues w' = queues w
  ∧ ptp_queues w' = ptp_queues w
  ∧ disk w' = disk w
  ∧ conns w' = <[h := Closed]> (conns w).
Proof.
  intros Hinv%reachable_registered Hr Hdata w'.
  pose proof (registered_not_reading w h Hinv Hr) as Hun.
  assert (w' = handle_client_finally h w) as -> by (by destruct Hdata as [-> | ->]).
  split; [|done]. intros k.
  rewrite finally_subscribers, finally_ptp_consumers.
  destruct (Hun k) as [Hs Hp]. by rewrite !discard_absent.
Qed.

Lemma end_of_stream_changes_only_the_connection_witness :
  let subscribe := Decoded (JObj [("action", JStr "subscribe"); ("topic", JStr "t1")]) in
  ∃ w, run [Accept 1; Accept 2; Recv "id1" 2 subscribe] (boot ∅ ∅ ∅) = Some w
       ∧ subscribers (handle_client "id2" 1 EOF w) !!! KStr "t1" = [2]
       ∧ conns (handle_client "id2" 1 EOF w) !! 1 = Some Closed.
Proof.
  intros subscribe.
  assert (∃ w, run [Accept 1; Accept 2; Recv "id1" 2 subscribe] (boot ∅ ∅ ∅) = Some w)
    as [w Hrun] by (eexists; by vm_compute).
  assert (reachable w) as Hreach by (by eexists _, _, _, _).
  destruct (end_of_stream_changes_only_the_connection w "id2" 1 EOF Hreach)
    as (Hlists & _ & _ & _ & _ & Hconns).
  - vm_compute in Hrun. injection Hrun as <-. by vm_compute.
  - by left.
  - exists w. split; [exact Hrun|]. split.
    + destruct (Hlists (KStr "t1")) as [-> _].
      vm_compute in Hrun. injection Hrun as <-. by vm_compute.
    + rewrite Hconns. apply lookup_insert_eq.
Defined.

(** ** Restart: loading the snapshots back *)

Lemma string_prefix_nil s : String.prefix "" s = true.
Proof. by destruct s. Qed.

Lemma string_length_app s1 s2 :
  String.length (s1 +:+ s2) = String.length s1 + String.length s2.
Proof. induction s1 as [|c s1 IH]; simpl; [done | by rewrite IH]. Qed.

Lemma substring_app_l s r : String.substring 0 (String.length s) (s +:+ r) = s.
Proof.
  induction s as [|c s IH]; simpl.
  - by destruct r.
  - by rewrite IH.
Qed.

Lemma substring_skip pre m s :
  String.substring (String.length pre) m (pre +:+ s) = String.substring 0 m s.
Proof. induction pre as [|c pre IH]; simpl; [done | exact IH]. Qed.

Lemma strip_snapshot_name pre t :
  strip (String.length pre) (pre +:+ t +:+ ".json") = t.
Proof.
  unfold strip. rewrite !string_length_app. simpl String.length.
  replace (String.length pre + (String.length t + 5) - 5 - String.length pre)
    with (String.length t) by lia.
  rewrite substring_skip. apply substring_app_l.
Qed.

(** What [_load_persistent_queues] computes from the name of a snapshot
    file: the prefix test and the topic cut out of the name. *)
Lemma snapshot_name_pubsub t :
  String.prefix "pubsub_" (topic_file t "pubsub") = true
  ∧ strip 7 (topic_file t "pubsub") = t.
Proof.
  split.
  - unfold topic_file. simpl. apply string_prefix_nil.
  - exact (strip_snapshot_name "pubsub_" t).
Qed.

Lemma snapshot_name_queue t :
  String.prefix "pubsub_" (topic_file t "queue") = false
  ∧ String.prefix "queue_" (topic_file t "queue") = true
  ∧ strip 6 (topic_file t "queue") = t.
Proof.
  split; [done|]. split.
  - unfold topic_file. simpl. apply string_prefix_nil.
  - exact (strip_snapshot_name "queue_" t).
Qed.

Lemma unpack_json_dump (X : messages) :
  py_iter (json_dump X) = Some ((λ m, JArr [m.1; m.2]) <$> X)
  ∧ mapM unpack2 ((λ m, JArr [m.1; m.2]) <$> X) = Some X.
Proof.
  split; [done|]. apply mapM_Some.
  induction X as [|[m i] X IH]; simpl; constructor; [reflexivity | exact IH].
Qed.

Lemma load_entry_pubsub (d : gmap string json) t (X : messages) qs :
  d !! topic_file t "pubsub" = Some (json_dump X) →
  load_entry d (topic_file t "pubsub") qs
  = Some (<[KStr t := qs.1 !!! KStr t ++ X]> qs.1, qs.2).
Proof.
  intros Hd. unfold load_entry.
  destruct (snapshot_name_pubsub t) as [-> ->].
  unfold load_messages. rewrite Hd.
  destruct (unpack_json_dump X) as [-> Hunpack]. simpl.
  change (list_fmap _ _ ?f X) with (f <$> X). by rewrite Hunpack.
Qed.

Lemma load_entry_queue (d : gmap string json) t (X : messages) qs :
  d !! topic_file t "queue" = Some (json_dump X) →
  load_entry d (topic_file t "queue") qs
  = Some (qs.1, <[KStr t := qs.2 !!! KStr t ++ X]> qs.2).
Proof.
  intros Hd. unfold load_entry.
  destruct (snapshot_name_queue t) as (-> & -> & ->).
  unfold load_messages. rewrite Hd. by rewrite as_pairs_json_dump.
Qed.

Lemma snapshot_of_cons_same name rest (d : gmap string json) t m (X : messages) :
  name = topic_file t m →
  name ∉ rest →
  d !! name = Some (json_dump X) →
  snapshot_of (name :: rest) d t m = X ∧ snapshot_of rest d t m = [].
Proof.
  intros -> Hnotin Hd. unfold snapshot_of. split.
  - rewrite bool_decide_eq_true_2 by apply list_elem_of_here.
    unfold load_messages. rewrite Hd. by rewrite as_pairs_json_dump.
  - by rewrite bool_decide_eq_false_2.
Qed.

Lemma snapshot_of_cons_other name rest (d : gmap string json) t m :
  name ≠ topic_file t m →
  snapshot_of (name :: rest) d t m = snapshot_of rest d t m.
Proof.
  intros Hne. unfold snapshot_of.
  destruct (decide (topic_file t m ∈ rest)) as [Hin|Hnotin].
  - rewrite !bool_decide_eq_true_2; [done | done | by apply list_elem_of_further].
  - rewrite !bool_decide_eq_false_2; [done | done |].
    intros [?|?]%elem_of_cons; [congruence | done].
Qed.

(** The loading loop, from any accumulated registries on. *)
Lemma load_persistent_queues_spec (d : gmap string json) listing :
  ∀ qs,
    snapshot_directory listing d →
    ∃ qs',
      load_persistent_queues d listing qs = Some qs'
      ∧ (∀ t, qs'.1 !!! KStr t = qs.1 !!! KStr t ++ snapshot_of listing d t "pubsub")
      ∧ (∀ t, qs'.2 !!! KStr t = qs.2 !!! KStr t ++ snapshot_of listing d t "queue")
      ∧ (∀ k, (∀ t, k ≠ KStr t) → qs'.1 !!! k = qs.1 !!! k ∧ qs'.2 !!! k = qs.2 !!! k).
Proof.
  induction listing as [|name rest IH]; intros qs [Hnd Hfiles].
  - exists qs. unfold snapshot_of. simpl. split; [done|].
    split; [intros t; by rewrite app_nil_r|].
    split; [intros t; by rewrite app_nil_r | done].
  - apply NoDup_cons in Hnd as [Hnotin Hnd].
    destruct (Hfiles name) as (t0 & m0 & X0 & Hm0 & Hname & Hd);
      [apply list_elem_of_here|].
    assert (snapshot_directory rest d) as Hrest.
    { split; [done|]. intros n Hn. apply Hfiles. by apply list_elem_of_further. }
    simpl. destruct Hm0 as [-> | ->].
    + rewrite Hname, (load_entry_pubsub d t0 X0 qs) by (by rewrite <- Hname).
      destruct (IH (<[KStr t0 := qs.1 !!! KStr t0 ++ X0]> qs.1, qs.2) Hrest)
        as (qs' & Hrun & Hq & Hpq & Hother).
      exists qs'. rewrite <- Hname. split; [exact Hrun|]. simpl in Hq, Hpq, Hother.
      split; [|split].
      * intros t. rewrite Hq. destruct (decide (t = t0)) as [->|Hne].
        -- destruct (snapshot_of_cons_same name rest d t0 "pubsub" X0) as [-> ->]; try done.
           by rewrite lookup_total_insert_eq, app_nil_r.
        -- rewrite lookup_total_insert_ne by congruence.
           rewrite (snapshot_of_cons_other name); [done|].
           rewrite Hname. intros [? _]%topic_file_inj; auto.
      * intros t. rewrite Hpq. rewrite (snapshot_of_cons_other name); [done|].
        rewrite Hname. intros [_ ?]%topic_file_inj; auto. discriminate.
      * intros k Hk. destruct (Hother k Hk) as [-> ->].
        rewrite lookup_total_insert_ne; [done|]. intros <-. by apply (Hk t0).
    + rewrite Hname, (load_entry_queue d t0 X0 qs) by (by rewrite <- Hname).
      destruct (IH (qs.1, <[KStr t0 := qs.2 !!! KStr t0 ++ X0]> qs.2) Hrest)
        as (qs' & Hrun & Hq & Hpq & Hother).
      exists qs'. rewrite <- Hname. split; [exact Hrun|]. simpl in Hq, Hpq, Hother.
      split; [|split].
      * intros t. rewrite Hq. rewrite (snapshot_of_cons_other name); [done|].
        rewrite Hname. intros [_ ?]%topic_file_inj; auto. discriminate.
      * intros t. rewrite Hpq. destruct (decide (t = t0)) as [->|Hne].
        -- destruct (snapshot_of_cons_same name rest d t0 "queue" X0) as [-> ->]; try done.
           by rewrite lookup_total_insert_eq, app_nil_r.
        -- rewrite lookup_total_insert_ne by congruence.
           rewrite (snapshot_of_cons_other name); [done|].
           rewrite Hname. intros [? _]%topic_file_inj; auto.
      * intros k Hk. destruct (Hother k Hk) as [-> ->].
        rewrite lookup_total_insert_ne; [done|]. intros <-. by apply (Hk t0).
Qed.

(** X14: started on a directory that holds only snapshots written by
    [save_messages] for the two modes, each listed once, the broker's
    constructor does not raise; the backlog of each topic and the pending
    FIFO of each queue are exactly the pairs of the matching file, in the
    saved order (empty when there is no file), under the file's topic name
    as a string key; the other keys are empty and there is no subscriber,
    no consumer and no connection. *)
Theorem restart_restores_snapshots listing (d : gmap string json) :
  snapshot_directory listing d →
  ∃ w, broker_init listing d = Some w
       ∧ (∀ t, queues w !!! KStr t = snapshot_of listing d t "pubsub"
               ∧ ptp_queues w !!! KStr t = snapshot_of listing d t "queue")
       ∧ (∀ k, (∀ t, k ≠ KStr t) → queues w !!! k = [] ∧ ptp_queues w !!! k = [])
       ∧ subscribers w = ∅ ∧ ptp_consumers w = ∅ ∧ conns w = ∅ ∧ disk w = d.
Proof.
  intros Hdir.
  destruct (load_persistent_queues_spec d listing (∅, ∅) Hdir)
    as (qs & Hrun & Hq & Hpq & Hother).
  exists (boot qs.1 qs.2 d). unfold broker_init. rewrite Hrun. simpl.
  split; [done|]. split; [|split; [|done]].
  - intros t. rewrite Hq, Hpq. simpl. by rewrite !lookup_total_empty.
  - intros k Hk. destruct (Hother k Hk) as [-> ->]. simpl.
    by rewrite !lookup_total_empty.
Qed.

Lemma restart_restores_snapshots_witness :
  let d := save_messages "jobs" [(JStr "a", JStr "id1"); (JStr "b", JStr "id2")] "queue"
             (save_messages "news" [(JStr "x", JStr "id3")] "pubsub" ∅) in
  ∃ w, broker_init ["queue_jobs.json"; "pubsub_news.json"] d = Some w
       ∧ ptp_queues w !!! KStr "jobs" = [(JStr "a", JStr "id1"); (JStr "b", JStr "id2")]
       ∧ queues w !!! KStr "news" = [(JStr "x", JStr "id3")]
       ∧ queues w !!! KStr "jobs" = [].
Proof.
  intros d.
  destruct (restart_restores_snapshots ["queue_jobs.json"; "pubsub_news.json"] d)
    as (w & Hinit & Hlists & _).
  - split.
    + apply NoDup_cons. split; [by intros ?%list_elem_of_singleton|]. apply NoDup_singleton.
    + intros name [-> | ->%list_elem_of_singleton]%elem_of_cons.
      * exists "jobs", "queue", [(JStr "a", JStr "id1"); (JStr "b", JStr "id2")].
        split; [by right|]. split; [reflexivity | by vm_compute].
      * exists "news", "pubsub", [(JStr "x", JStr "id3")].
        split; [by left|]. split; [reflexivity | by vm_compute].
  - exists w. split; [exact Hinit|].
    destruct (Hlists "jobs") as [Hq1 Hpq1]. destruct (Hlists "news") as [Hq2 _].
    rewrite Hpq1, Hq2, Hq1. by vm_compute.
Defined.

Section publish_then_restart.
Context (topic : json) (t : scalar).
Hypothesis topic_hashable : hashable topic = Some t.
Local Abbreviation k := (dict_key t).


End publish_then_restart.


(** ** A second consumer *)

Section second_consumer.
Context (topic : json) (t : scalar).
Hypothesis topic_hashable : hashable topic = Some t.
Local Abbreviation k := (dict_key t).

End second_consumer.

